(** * bufbuild/app-go: process containers, exit codes and the command tree

    A shallow embedding of the packages [app] (containers, exit-coded
    errors), [appext] (application-name environment prefix) and [appcmd]
    (the declarative command model and its compilation to a cobra tree),
    followed by the properties proved about them.

    Conventions.
    - A Go [string] is a byte sequence: Rocq's [string].
    - A Go [error] is [option error_val]; [None] is [nil].
    - A Go function that may panic returns in [result]; an [(T, error)]
      pair of results uses the [Err] case of the same type.
    - Code that writes to the process (stdout, stderr, user actions) is a
      state transformer over a type [World] that is never inspected. *)

From Stdlib Require Import ZArith Ascii String.
From stdpp Require Import gmap strings list sorting.

Set Warnings "-register-all".
Local Open Scope Z_scope.

(** ** Errors: the part of Go's [errors] package the sources rely on *)

(** Modelled from the spec: the repository's two error types, whose
    declarations are not among the sources. [appError] is the exit-coded
    error ("wraps an underlying error with an integer exit code") and
    [invalidArgumentError] the invalid-argument kind, which wraps a
    delegate.

    Error values are trees. Besides the two types above, [errorString]
    is what [errors.New] and a [fmt.Errorf] without [%w] build,
    [wrapError] a [fmt.Errorf] with one [%w] (its [Unwrap() error] may be
    nil), [joinError] a value with [Unwrap() []error] ([errors.Join],
    several [%w]). *)
Inductive error_val : Type :=
| errorString (msg : string)
| wrapError (msg : string) (err : option error_val)
| joinError (errs : list (option error_val))
| appError (exitCode : Z) (err : option error_val)
| invalidArgumentError (delegate : option error_val).

Abbreviation error := (option error_val).

(** Outcome of a Go call: a value, a returned error, or a panic. *)
Inductive result (A : Type) : Type :=
| Ok (a : A)
| Err (e : error_val)
| Panic (msg : string).
Arguments Ok {A} a.
Arguments Err {A} e.
Arguments Panic {A} msg.

Global Instance result_ret : MRet result := λ A a, Ok a.
Global Instance result_bind : MBind result := λ A B f r,
  match r with
  | Ok a => f a
  | Err e => Err e
  | Panic msg => Panic msg
  end.

Module errors.

(** The static type of the pointer handed to [errors.As]. *)
Inductive target_type : Type := AppErrorPtr | InvalidArgumentErrorPtr.

(** [reflectlite.TypeOf(err).AssignableTo(targetType)]. *)
Definition assignable (e : error_val) (t : target_type) : bool :=
  match e, t with
  | appError _ _, AppErrorPtr => true
  | invalidArgumentError _, InvalidArgumentErrorPtr => true
  | _, _ => false
  end.

(** The loop of [errors.as]: the error itself first, then what it unwraps
    to; a multi-error is searched depth first, left to right, skipping
    nil members. The value found is what [*target] is set to. *)
Fixpoint as_ (e : error_val) (t : target_type) {struct e} : option error_val :=
  if assignable e t then Some e
  else
    match e with
    | errorString _ => None
    | wrapError _ inner | appError _ inner | invalidArgumentError inner =>
        match inner with
        | None => None
        | Some e' => as_ e' t
        end
    | joinError errs =>
        (fix each (l : list (option error_val)) : option error_val :=
           match l with
           | [] => None
           | None :: l' => each l'
           | Some e' :: l' =>
               match as_ e' t with
               | Some found => Some found
               | None => each l'
               end
           end) errs
    end.

(** [errors.As(err, target)]. [target] is [None] for a nil target, on
    which [As] panics unless [err] is nil (the nil test on [err] comes
    first). The result is the value stored through [target], if any. *)
Definition As (err : error) (target : option target_type)
  : result (option error_val) :=
  match err with
  | None => Ok None
  | Some e =>
      match target with
      | None => Panic "errors: target cannot be nil"
      | Some t => Ok (as_ e t)
      end
  end.

(** No exit-coded error anywhere in the tree of [e]. *)
Fixpoint noAppError (e : error_val) : bool :=
  match e with
  | errorString _ => true
  | appError _ _ => false
  | wrapError _ inner | invalidArgumentError inner =>
      match inner with
      | None => true
      | Some e' => noAppError e'
      end
  | joinError errs =>
      (fix each (l : list (option error_val)) : bool :=
         match l with
         | [] => true
         | None :: l' => each l'
         | Some e' :: l' => noAppError e' && each l'
         end) errs
  end.

Definition noAppErrorIn (err : error) : bool :=
  match err with
  | None => true
  | Some e => noAppError e
  end.

(** One wrapping layer put around an error: [fmt.Errorf] with [%w], the
    invalid-argument wrapper, or a multi-error that holds the error
    after [before] and ahead of [after]. *)
Inductive layer : Type :=
| Wrapf (msg : string)
| InvalidArgument
| Joined (before after : list (option error_val)).

Definition wrapLayer (l : layer) (e : error_val) : error_val :=
  match l with
  | Wrapf msg => wrapError msg (Some e)
  | InvalidArgument => invalidArgumentError (Some e)
  | Joined before after => joinError (before ++ Some e :: after)
  end.

(** [layers] are listed from the outside in. *)
Definition wrapLayers (layers : list layer) (e : error_val) : error_val :=
  foldr wrapLayer e layers.

(** In a multi-error, the members searched before the wrapped error hold
    no exit-coded error of their own. *)
Definition layerOk (l : layer) : bool :=
  match l with
  | Joined before _ => forallb noAppErrorIn before
  | _ => true
  end.

End errors.

Module app.

(** *** Container interfaces *)

(** [io.Writer]: [Write] changes the world and reports an error or nil
    (the byte count it also returns is never used by the sources). *)
Record Writer (World : Type) : Type :=
  { Write : string → World → World * error }.
Arguments Write {World} _ _ _.

(** [EnvContainer]. [ForEachEnv] calls its argument once per entry: the
    embedding gives the sequence of those calls. *)
Record EnvContainer : Type :=
  { Env : string → string;
    ForEachEnv : list (string * string) }.

Record StdinContainer (Reader : Type) : Type := { Stdin : Reader }.
Arguments Stdin {Reader} _.
Record StdoutContainer (World : Type) : Type := { Stdout : Writer World }.
Arguments Stdout {World} _.
Record StderrContainer (World : Type) : Type := { Stderr : Writer World }.
Arguments Stderr {World} _.

(** [ArgContainer]: [Arg] panics outside [0 <= i < NumArgs]. *)
Record ArgContainer : Type :=
  { NumArgs : Z;
    Arg : Z → result string }.

(** Modelled from the spec: the [container] struct behind the
    [Container] interface and its constructor [newContainer], which are
    not among the sources ("a full Container is the conjunction of all
    four facets", the argument facet being the fourth next to the three
    streams). It embeds the five interfaces; passing a [Container] where
    one of them is expected is the projection. *)
Record Container (World Reader : Type) : Type := newContainer
  { Container_Env :> EnvContainer;
    Container_Stdin :> StdinContainer Reader;
    Container_Stdout :> StdoutContainer World;
    Container_Stderr :> StderrContainer World;
    Container_Arg :> ArgContainer }.
Arguments newContainer {World Reader} _ _ _ _ _.
Arguments Container_Env {World Reader} _.
Arguments Container_Stdin {World Reader} _.
Arguments Container_Stdout {World Reader} _.
Arguments Container_Stderr {World Reader} _.
Arguments Container_Arg {World Reader} _.

(** *** Environment containers *)

(** Modelled from the spec: the [envContainer] struct, its constructor
    [newEnvContainer] and its two methods, which are not among the
    sources ("mapping from variable name to value (empty values treated
    as absent); supports point lookup and full enumeration (enumeration
    never yields empty-valued entries)"). *)
Record envContainer : Type := { variables : gmap string string }.

(** Modelled from the spec: [newEnvContainer], not among the sources;
    it keeps the entries whose value is not empty ("empty values treated
    as absent"). *)
Definition newEnvContainer (m : gmap string string) : envContainer :=
  {| variables := filter (λ kv, kv.2 ≠ "") m |}.

(** Modelled from the spec: the method [Env] of [envContainer], not
    among the sources ("point lookup"; the empty string for a key that is
    not set). *)
Definition envContainer_Env (e : envContainer) (key : string) : string :=
  default "" (variables e !! key).

(** Modelled from the spec: the method [ForEachEnv] of [envContainer],
    not among the sources ("enumeration never yields empty-valued
    entries"). The order is that of [map_to_list]; Go leaves it open. *)
Definition envContainer_ForEachEnv (e : envContainer) : list (string * string) :=
  filter (λ kv, kv.2 ≠ "") (map_to_list (variables e)).

(** An [*envContainer] as an [EnvContainer]. *)
Definition envContainer_EnvContainer (e : envContainer) : EnvContainer :=
  {| Env := envContainer_Env e; ForEachEnv := envContainer_ForEachEnv e |}.

(** [NewEnvContainer]. *)
Definition NewEnvContainer (m : gmap string string) : EnvContainer :=
  envContainer_EnvContainer (newEnvContainer m).

(** [EnvironMap]: a fresh map filled by the callback. *)
Definition EnvironMap (envContainer : EnvContainer) : gmap string string :=
  foldl (λ (m : gmap string string) kv,
           if decide (kv.2 ≠ "") then <[kv.1 := kv.2]> m else m)
        ∅ (ForEachEnv envContainer).

(** [NewEnvContainerWithOverrides]: [maps.Copy(m, overrides)] lets the
    overrides win, which is the left-biased union. *)
Definition NewEnvContainerWithOverrides
    (envContainer : EnvContainer) (overrides : gmap string string) : EnvContainer :=
  let m := EnvironMap envContainer in
  envContainer_EnvContainer (newEnvContainer (overrides ∪ m)).

(** Go compares strings byte by byte: [s <= t]. *)
Definition string_le (s t : string) : Prop := String.leb s t = true.

Global Instance string_le_dec s t : Decision (string_le s t).
Proof. unfold string_le. apply _. Defined.

(** [sort.Strings]: the ascending rearrangement. Any stable or unstable
    sort returns the same list, since equal strings are identical. *)
Definition sort_Strings (l : list string) : list string :=
  merge_sort string_le l.

(** [Environ]: append one "KEY=VALUE" per callback, then sort. *)
Definition Environ (envContainer : EnvContainer) : list string :=
  let environ :=
    foldl (λ (environ : list string) kv, environ ++ [kv.1 +:+ "=" +:+ kv.2])
          [] (ForEachEnv envContainer) in
  sort_Strings environ.

(** *** Argument containers *)

(** Modelled from the spec: the [argContainer] struct, its constructor
    [newArgContainer] and its two methods, which are not among the
    sources ("an ordered, indexable sequence of strings; out-of-range
    index access is a programming-contract violation (fatal)"). *)
Record argContainer : Type := { values : list string }.

(** Modelled from the spec: [newArgContainer], not among the sources; the
    container holds the sequence it is given. *)
Definition newArgContainer (s : list string) : argContainer := {| values := s |}.

(** Modelled from the spec: the method [NumArgs] of [argContainer], not
    among the sources. *)
Definition argContainer_NumArgs (a : argContainer) : Z :=
  Z.of_nat (length (values a)).

(** Modelled from the spec: the method [Arg] of [argContainer], not among
    the sources ("out-of-range index access is a programming-contract
    violation (fatal)"). *)
Definition argContainer_Arg (a : argContainer) (i : Z) : result string :=
  if bool_decide (0 ≤ i < Z.of_nat (length (values a))) then
    match values a !! Z.to_nat i with
    | Some s => Ok s
    | None => Panic "index out of range"
    end
  else Panic "index out of range".

(** An [*argContainer] as an [ArgContainer]. *)
Definition argContainer_ArgContainer (a : argContainer) : ArgContainer :=
  {| NumArgs := argContainer_NumArgs a; Arg := argContainer_Arg a |}.

(** [NewArgContainer]. *)
Definition NewArgContainer (args : list string) : ArgContainer :=
  argContainer_ArgContainer (newArgContainer args).

(** [Args]: [make([]string, numArgs)] panics on a negative length; the
    loop then reads [Arg(0)], ..., [Arg(numArgs-1)] in turn. *)
Definition Args (argList : ArgContainer) : result (list string) :=
  let numArgs := NumArgs argList in
  if bool_decide (numArgs < 0) then Panic "makeslice: len out of range"
  else mapM (λ i : nat, Arg argList (Z.of_nat i)) (seq 0 (Z.to_nat numArgs)).

(** [NewContainerForArgs]: the base container serves as each of the
    first four facets. *)
Definition NewContainerForArgs {World Reader : Type}
    (container : Container World Reader) (newArgs : list string)
  : Container World Reader :=
  newContainer container container container container (NewArgContainer newArgs).

(** *** Exit codes *)

(** Modelled from the spec: [newAppError], which is not among the
    sources ("all three reject exit code 0 as a contract violation"). *)
Definition newAppError (exitCode : Z) (err : error) : result error_val :=
  if bool_decide (exitCode = 0) then Panic "exit code 0"
  else Ok (appError exitCode err).

(** [NewError] and [WrapError]. *)
Definition NewError (exitCode : Z) (message : string) : result error_val :=
  newAppError exitCode (Some (errorString message)).

Definition WrapError (exitCode : Z) (err : error) : result error_val :=
  newAppError exitCode err.

(** [GetExitCode]: [appErr := &appError{}] and [&appErr] is the target. *)
Definition GetExitCode (err : error) : result Z :=
  match err with
  | None => Ok 0
  | Some _ =>
      found ← errors.As err (Some errors.AppErrorPtr);
      match found with
      | Some (appError exitCode _) => Ok exitCode
      | Some _ => Ok 1
      | None => Ok 1
      end
  end.

(** *** Further helpers of the package *)

(** [EnvBool]: [strconv.ParseBool] is outside the repository and is an
    argument here. *)
Definition EnvBool (container : EnvContainer) (key : string) (defaultValue : bool)
    (strconv_ParseBool : string → result bool) : result bool :=
  let value := Env container key in
  if String.eqb value "" then Ok defaultValue
  else strconv_ParseBool value.

(** The four path constants [DevStdinFilePath], [DevStdoutFilePath],
    [DevStderrFilePath] and [DevNullFilePath] are declared per platform
    outside the sources: they are the fields of this record. *)
Record DevPaths : Type :=
  { DevStdinFilePath : string;
    DevStdoutFilePath : string;
    DevStderrFilePath : string;
    DevNullFilePath : string }.

Definition IsDevStdin (dev : DevPaths) (path : string) : bool :=
  negb (String.eqb path "") && String.eqb path (DevStdinFilePath dev).

Definition IsDevStdout (dev : DevPaths) (path : string) : bool :=
  negb (String.eqb path "") && String.eqb path (DevStdoutFilePath dev).

Definition IsDevStderr (dev : DevPaths) (path : string) : bool :=
  negb (String.eqb path "") && String.eqb path (DevStderrFilePath dev).

Definition IsDevNull (dev : DevPaths) (path : string) : bool :=
  negb (String.eqb path "") && String.eqb path (DevNullFilePath dev).

Definition IsDevPath (dev : DevPaths) (path : string) : bool :=
  IsDevStdin dev path || IsDevStdout dev path || IsDevStderr dev path
  || IsDevNull dev path.

(** [Run]: [interrupt.Handle] is outside the repository and
    [printError] is not among the sources: both are arguments here. *)
Definition Run {World Reader Ctx : Type}
    (interrupt_Handle : Ctx → Ctx)
    (printError : StderrContainer World → error_val → World → World)
    (ctx : Ctx) (container : Container World Reader)
    (f : Ctx → Container World Reader → World → result (World * error))
    (w : World) : result (World * error) :=
  r ← f (interrupt_Handle ctx) container w;
  match r.2 with
  | Some err => Ok (printError container err r.1, Some err)
  | None => Ok (r.1, None)
  end.

End app.

(** ** Package [appext]: the application-name environment prefix *)

Module appext.

Definition byte_in (lo hi c : ascii) : bool :=
  (nat_of_ascii lo <=? nat_of_ascii c)%nat && (nat_of_ascii c <=? nat_of_ascii hi)%nat.

(** [strings.ToUpper] on one byte of an ASCII string. *)
Definition upper_byte (c : ascii) : ascii :=
  if byte_in "a" "z" c then ascii_of_nat (nat_of_ascii c - 32) else c.

(** [strings.ToUpper], exact on ASCII input (every name that
    [validateAppName] accepts is ASCII); bytes from 128 up, which Go
    decodes as UTF-8, are left as they are here. *)
Fixpoint strings_ToUpper (s : string) : string :=
  match s with
  | EmptyString => EmptyString
  | String c s' => String (upper_byte c) (strings_ToUpper s')
  end.

(** [strings.ReplaceAll(s, old, new)] for a non-empty [old]: scan from
    the left, replace each match and resume after it. [skip] counts the
    bytes of the current match still to pass over. *)
Fixpoint replaceAll_from (skip : nat) (old new s : string) : string :=
  match s with
  | EmptyString => EmptyString
  | String c s' =>
      match skip with
      | S k => replaceAll_from k old new s'
      | O =>
          if String.prefix old s
          then new +:+ replaceAll_from (String.length old - 1) old new s'
          else String c (replaceAll_from O old new s')
      end
  end.

Definition strings_ReplaceAll (s old new : string) : string :=
  replaceAll_from O old new s.

Definition getAppNameEnvPrefix (appName : string) : string :=
  strings_ToUpper (strings_ReplaceAll appName "-" "_") +:+ "_".

(** The test of the loop body of [validateAppName]. A byte below 128 is
    its own rune; a byte from 128 up belongs to a rune that is at least
    128 or to an invalid sequence, and fails the test either way, so the
    loop over runes and this loop over bytes accept the same names. *)
Definition appNameByte (c : ascii) : bool :=
  byte_in "a" "z" c || byte_in "A" "Z" c || byte_in "0" "9" c
  || Ascii.eqb c "-" || Ascii.eqb c "_".

Fixpoint allBytes (p : ascii → bool) (s : string) : bool :=
  match s with
  | EmptyString => true
  | String c s' => p c && allBytes p s'
  end.

Definition validateAppName (appName : string) : error :=
  if String.eqb appName "" then Some (errorString "empty application name")
  else if allBytes appNameByte appName then None
  else Some (errorString ("invalid application name: " +:+ appName)).

(** The environment keys [getDirPath] and [getPort] look up first. *)
Definition dirEnvKey (appName envSuffix : string) : string :=
  getAppNameEnvPrefix appName +:+ envSuffix.

(** [getDirPath]: [getBaseDirPath] and [filepath.Join] come from outside
    this package and are arguments here. *)
Definition getDirPath (container : app.EnvContainer) (appName : string)
    (filepath_Join : string → string → string)
    (envSuffix : string) (getBaseDirPath : app.EnvContainer → result string) : string :=
  let dirPath := app.Env container (dirEnvKey appName envSuffix) in
  if String.eqb dirPath "" then
    match getBaseDirPath container with
    | Ok baseDirPath => filepath_Join baseDirPath appName
    | _ => dirPath
    end
  else dirPath.

(** [getPort]: [strconv.ParseUint(s, 10, 16)] and the [%q] rendering of
    the message come from outside this package and are arguments here. *)
Definition getPort (container : app.EnvContainer) (appName : string)
    (strconv_ParseUint16 : string → result Z) (quote : string → string)
  : result Z :=
  let portString := app.Env container (getAppNameEnvPrefix appName +:+ "PORT") in
  let portString :=
    if String.eqb portString "" then app.Env container "PORT" else portString in
  if String.eqb portString "" then Ok 0
  else
    match strconv_ParseUint16 portString with
    | Ok port => Ok port
    | Err err =>
        Err (wrapError ("could not parse port " +:+ quote portString +:+ " to uint16: ")
               (Some err))
    | Panic msg => Panic msg
    end.

(** The spec's wording of the prefix, kept apart from the code's: the
    name upper-cased, every run of non-alphanumeric characters collapsed
    to a single '_', and a trailing '_' appended. *)
Definition alphanumeric (c : ascii) : bool :=
  byte_in "a" "z" c || byte_in "A" "Z" c || byte_in "0" "9" c.

Fixpoint collapseRuns (inRun : bool) (s : string) : string :=
  match s with
  | EmptyString => EmptyString
  | String c s' =>
      if alphanumeric c then String (upper_byte c) (collapseRuns false s')
      else if inRun then collapseRuns true s'
      else String "_" (collapseRuns true s')
  end.

Definition specEnvPrefix (appName : string) : string :=
  collapseRuns false appName +:+ "_".

(** What the code computes on a valid name, byte for byte. *)
Definition prefixByte (c : ascii) : ascii :=
  if alphanumeric c then upper_byte c else "_"%char.

Fixpoint mapBytes (f : ascii → ascii) (s : string) : string :=
  match s with
  | EmptyString => EmptyString
  | String c s' => String (f c) (mapBytes f s')
  end.

(** No two neighbouring bytes are both non-alphanumeric. *)
Fixpoint noAdjacentSeparators (s : string) : bool :=
  match s with
  | EmptyString => true
  | String c s' =>
      match s' with
      | EmptyString => true
      | String d _ => (alphanumeric c || alphanumeric d) && noAdjacentSeparators s'
      end
  end.

(** A byte of an environment-variable name in upper case. *)
Definition envNameByte (c : ascii) : bool :=
  byte_in "A" "Z" c || byte_in "0" "9" c || Ascii.eqb c "_".

End appext.

(** ** The cobra command object, as far as the sources touch it

    [cobra] and [pflag] are outside the repository. What follows is the
    data the sources store in a [*cobra.Command]; what the library
    computes from it is a parameter ([appcmd.CobraLib]). *)

Module cobra.

(** A [pflag.FlagSet]: the boolean flags defined so far and the
    normalisation function, if one was set. *)
Record FlagSet : Type :=
  { boolFlags : list string;
    normalizeFunc : option (string → string) }.

Definition newFlagSet : FlagSet := {| boolFlags := []; normalizeFunc := None |}.

(** [flagSet.BoolVar(&v, name, false, usage)]. *)
Definition BoolVar (flagSet : FlagSet) (name : string) : FlagSet :=
  {| boolFlags := boolFlags flagSet ++ [name]; normalizeFunc := normalizeFunc flagSet |}.

Definition SetNormalizeFunc (flagSet : FlagSet) (f : string → string) : FlagSet :=
  {| boolFlags := boolFlags flagSet; normalizeFunc := Some f |}.

(** The fields of [cobra.Command] the sources set. [R] is the type of
    the [Run] closure and [HF] that of the help function: both receive
    the command they run on, so they are typed over the closure-free
    image of the tree ([Info] below). *)
Inductive Command (World Reader R HF : Type) : Type := mkCommand
  { Use : string;
    Aliases : list string;
    Args : option (list string → error);
    Deprecated : string;
    Hidden : bool;
    Short : string;
    Long : string;
    helpTemplate : string;
    helpFunc : option HF;
    flags : FlagSet;
    persistentFlags : FlagSet;
    Run : option R;
    commands : list (Command World Reader R HF);
    SilenceErrors : bool;
    DisableDefaultCmd : bool;
    outWriter : option (app.Writer World);
    errWriter : option (app.Writer World);
    inReader : option Reader;
    args : option (list string) }.
Arguments mkCommand {World Reader R HF} _ _ _ _ _ _ _ _ _ _ _ _ _ _ _ _ _ _ _.
Arguments Use {World Reader R HF} _.
Arguments Aliases {World Reader R HF} _.
Arguments Args {World Reader R HF} _.
Arguments Deprecated {World Reader R HF} _.
Arguments Hidden {World Reader R HF} _.
Arguments Short {World Reader R HF} _.
Arguments Long {World Reader R HF} _.
Arguments helpTemplate {World Reader R HF} _.
Arguments helpFunc {World Reader R HF} _.
Arguments flags {World Reader R HF} _.
Arguments persistentFlags {World Reader R HF} _.
Arguments Run {World Reader R HF} _.
Arguments commands {World Reader R HF} _.
Arguments SilenceErrors {World Reader R HF} _.
Arguments DisableDefaultCmd {World Reader R HF} _.
Arguments outWriter {World Reader R HF} _.
Arguments errWriter {World Reader R HF} _.
Arguments inReader {World Reader R HF} _.
Arguments args {World Reader R HF} _.

(** [c.Long = s]. *)
Definition set_Long {World Reader R HF : Type}
    (c : Command World Reader R HF) (s : string) : Command World Reader R HF :=
  match c with
  | mkCommand xUse xAliases xArgs xDeprecated xHidden xShort xLong xhelpTemplate xhelpFunc xflags xpersistentFlags xRun xcommands xSilenceErrors xDisableDefaultCmd xoutWriter xerrWriter xinReader xargs =>
      mkCommand xUse xAliases xArgs xDeprecated xHidden xShort s xhelpTemplate xhelpFunc xflags xpersistentFlags xRun xcommands xSilenceErrors xDisableDefaultCmd xoutWriter xerrWriter xinReader xargs
  end.

(** [c.Run = r]. *)
Definition set_Run {World Reader R HF : Type}
    (c : Command World Reader R HF) (r : option R) : Command World Reader R HF :=
  match c with
  | mkCommand xUse xAliases xArgs xDeprecated xHidden xShort xLong xhelpTemplate xhelpFunc xflags xpersistentFlags xRun xcommands xSilenceErrors xDisableDefaultCmd xoutWriter xerrWriter xinReader xargs =>
      mkCommand xUse xAliases xArgs xDeprecated xHidden xShort xLong xhelpTemplate xhelpFunc xflags xpersistentFlags r xcommands xSilenceErrors xDisableDefaultCmd xoutWriter xerrWriter xinReader xargs
  end.

(** [c.SilenceErrors = b]. *)
Definition set_SilenceErrors {World Reader R HF : Type}
    (c : Command World Reader R HF) (b : bool) : Command World Reader R HF :=
  match c with
  | mkCommand xUse xAliases xArgs xDeprecated xHidden xShort xLong xhelpTemplate xhelpFunc xflags xpersistentFlags xRun xcommands xSilenceErrors xDisableDefaultCmd xoutWriter xerrWriter xinReader xargs =>
      mkCommand xUse xAliases xArgs xDeprecated xHidden xShort xLong xhelpTemplate xhelpFunc xflags xpersistentFlags xRun xcommands b xDisableDefaultCmd xoutWriter xerrWriter xinReader xargs
  end.

(** The flag set behind [c.Flags()] after a call that changed it. *)
Definition set_flags {World Reader R HF : Type}
    (c : Command World Reader R HF) (f : FlagSet) : Command World Reader R HF :=
  match c with
  | mkCommand xUse xAliases xArgs xDeprecated xHidden xShort xLong xhelpTemplate xhelpFunc xflags xpersistentFlags xRun xcommands xSilenceErrors xDisableDefaultCmd xoutWriter xerrWriter xinReader xargs =>
      mkCommand xUse xAliases xArgs xDeprecated xHidden xShort xLong xhelpTemplate xhelpFunc f xpersistentFlags xRun xcommands xSilenceErrors xDisableDefaultCmd xoutWriter xerrWriter xinReader xargs
  end.

(** The flag set behind [c.PersistentFlags()] after a call that changed it. *)
Definition set_persistentFlags {World Reader R HF : Type}
    (c : Command World Reader R HF) (f : FlagSet) : Command World Reader R HF :=
  match c with
  | mkCommand xUse xAliases xArgs xDeprecated xHidden xShort xLong xhelpTemplate xhelpFunc xflags xpersistentFlags xRun xcommands xSilenceErrors xDisableDefaultCmd xoutWriter xerrWriter xinReader xargs =>
      mkCommand xUse xAliases xArgs xDeprecated xHidden xShort xLong xhelpTemplate xhelpFunc xflags f xRun xcommands xSilenceErrors xDisableDefaultCmd xoutWriter xerrWriter xinReader xargs
  end.

(** [c.SetHelpTemplate(s)]. *)
Definition SetHelpTemplate {World Reader R HF : Type}
    (c : Command World Reader R HF) (s : string) : Command World Reader R HF :=
  match c with
  | mkCommand xUse xAliases xArgs xDeprecated xHidden xShort xLong xhelpTemplate xhelpFunc xflags xpersistentFlags xRun xcommands xSilenceErrors xDisableDefaultCmd xoutWriter xerrWriter xinReader xargs =>
      mkCommand xUse xAliases xArgs xDeprecated xHidden xShort xLong s xhelpFunc xflags xpersistentFlags xRun xcommands xSilenceErrors xDisableDefaultCmd xoutWriter xerrWriter xinReader xargs
  end.

(** [c.SetHelpFunc(f)]. *)
Definition SetHelpFunc {World Reader R HF : Type}
    (c : Command World Reader R HF) (f : HF) : Command World Reader R HF :=
  match c with
  | mkCommand xUse xAliases xArgs xDeprecated xHidden xShort xLong xhelpTemplate xhelpFunc xflags xpersistentFlags xRun xcommands xSilenceErrors xDisableDefaultCmd xoutWriter xerrWriter xinReader xargs =>
      mkCommand xUse xAliases xArgs xDeprecated xHidden xShort xLong xhelpTemplate (Some f) xflags xpersistentFlags xRun xcommands xSilenceErrors xDisableDefaultCmd xoutWriter xerrWriter xinReader xargs
  end.

(** [c.AddCommand(sub)]: the child is appended. *)
Definition AddCommand {World Reader R HF : Type}
    (c : Command World Reader R HF) (sub : Command World Reader R HF) : Command World Reader R HF :=
  match c with
  | mkCommand xUse xAliases xArgs xDeprecated xHidden xShort xLong xhelpTemplate xhelpFunc xflags xpersistentFlags xRun xcommands xSilenceErrors xDisableDefaultCmd xoutWriter xerrWriter xinReader xargs =>
      mkCommand xUse xAliases xArgs xDeprecated xHidden xShort xLong xhelpTemplate xhelpFunc xflags xpersistentFlags xRun (xcommands ++ [sub]) xSilenceErrors xDisableDefaultCmd xoutWriter xerrWriter xinReader xargs
  end.

(** [c.CompletionOptions.DisableDefaultCmd = b]. *)
Definition SetDisableDefaultCmd {World Reader R HF : Type}
    (c : Command World Reader R HF) (b : bool) : Command World Reader R HF :=
  match c with
  | mkCommand xUse xAliases xArgs xDeprecated xHidden xShort xLong xhelpTemplate xhelpFunc xflags xpersistentFlags xRun xcommands xSilenceErrors xDisableDefaultCmd xoutWriter xerrWriter xinReader xargs =>
      mkCommand xUse xAliases xArgs xDeprecated xHidden xShort xLong xhelpTemplate xhelpFunc xflags xpersistentFlags xRun xcommands xSilenceErrors b xoutWriter xerrWriter xinReader xargs
  end.

(** [c.SetOut(w)]. *)
Definition SetOut {World Reader R HF : Type}
    (c : Command World Reader R HF) (w : app.Writer World) : Command World Reader R HF :=
  match c with
  | mkCommand xUse xAliases xArgs xDeprecated xHidden xShort xLong xhelpTemplate xhelpFunc xflags xpersistentFlags xRun xcommands xSilenceErrors xDisableDefaultCmd xoutWriter xerrWriter xinReader xargs =>
      mkCommand xUse xAliases xArgs xDeprecated xHidden xShort xLong xhelpTemplate xhelpFunc xflags xpersistentFlags xRun xcommands xSilenceErrors xDisableDefaultCmd (Some w) xerrWriter xinReader xargs
  end.

(** [c.SetErr(w)]. *)
Definition SetErr {World Reader R HF : Type}
    (c : Command World Reader R HF) (w : app.Writer World) : Command World Reader R HF :=
  match c with
  | mkCommand xUse xAliases xArgs xDeprecated xHidden xShort xLong xhelpTemplate xhelpFunc xflags xpersistentFlags xRun xcommands xSilenceErrors xDisableDefaultCmd xoutWriter xerrWriter xinReader xargs =>
      mkCommand xUse xAliases xArgs xDeprecated xHidden xShort xLong xhelpTemplate xhelpFunc xflags xpersistentFlags xRun xcommands xSilenceErrors xDisableDefaultCmd xoutWriter (Some w) xinReader xargs
  end.

(** [c.SetIn(r)]. *)
Definition SetIn {World Reader R HF : Type}
    (c : Command World Reader R HF) (r : Reader) : Command World Reader R HF :=
  match c with
  | mkCommand xUse xAliases xArgs xDeprecated xHidden xShort xLong xhelpTemplate xhelpFunc xflags xpersistentFlags xRun xcommands xSilenceErrors xDisableDefaultCmd xoutWriter xerrWriter xinReader xargs =>
      mkCommand xUse xAliases xArgs xDeprecated xHidden xShort xLong xhelpTemplate xhelpFunc xflags xpersistentFlags xRun xcommands xSilenceErrors xDisableDefaultCmd xoutWriter xerrWriter (Some r) xargs
  end.

(** [c.SetArgs(a)]. *)
Definition SetArgs {World Reader R HF : Type}
    (c : Command World Reader R HF) (a : list string) : Command World Reader R HF :=
  match c with
  | mkCommand xUse xAliases xArgs xDeprecated xHidden xShort xLong xhelpTemplate xhelpFunc xflags xpersistentFlags xRun xcommands xSilenceErrors xDisableDefaultCmd xoutWriter xerrWriter xinReader xargs =>
      mkCommand xUse xAliases xArgs xDeprecated xHidden xShort xLong xhelpTemplate xhelpFunc xflags xpersistentFlags xRun xcommands xSilenceErrors xDisableDefaultCmd xoutWriter xerrWriter xinReader (Some a)
  end.

(** The tree without its closures: what a closure can read of the
    command it is given. *)
Fixpoint erase {World Reader R HF : Type} (c : Command World Reader R HF)
  : Command World Reader unit unit :=
  match c with
  | mkCommand xUse xAliases xArgs xDeprecated xHidden xShort xLong xhelpTemplate xhelpFunc xflags xpersistentFlags xRun xcommands xSilenceErrors xDisableDefaultCmd xoutWriter xerrWriter xinReader xargs =>
      mkCommand xUse xAliases xArgs xDeprecated xHidden xShort xLong xhelpTemplate (const tt <$> xhelpFunc) xflags xpersistentFlags (const tt <$> xRun) (erase <$> xcommands) xSilenceErrors xDisableDefaultCmd xoutWriter xerrWriter xinReader xargs
  end.

(** [c.Name()]: the usage line up to its first space. *)
Fixpoint firstWord (s : string) : string :=
  match s with
  | EmptyString => EmptyString
  | String c s' => if Ascii.eqb c " " then EmptyString else String c (firstWord s')
  end.

Definition Name {World Reader R HF : Type} (c : Command World Reader R HF) : string :=
  firstWord (Use c).

(** [c.Commands()]: the children as stored. (cobra orders siblings by
    name before listing them unless told otherwise; nothing below
    depends on the order of siblings.) *)
Definition Commands {World Reader R HF : Type} (c : Command World Reader R HF)
  : list (Command World Reader R HF) := commands c.

(** [nodeOf node root]: [node] is [root] or below it. *)
Inductive nodeOf {World Reader R HF : Type} (node : Command World Reader R HF)
  : Command World Reader R HF → Prop :=
| nodeOf_self : nodeOf node node
| nodeOf_sub root sub : sub ∈ commands root → nodeOf node sub → nodeOf node root.

(** The fields [commandToCobra] sets once, when it creates the node. *)
Definition staticFields {World Reader R HF : Type} (c : Command World Reader R HF) :=
  (Use c, Aliases c, Deprecated c, Hidden c, Short c, Long c, helpTemplate c, helpFunc c).

End cobra.

(** ** Package [appcmd]: the command model and its compilation *)

Module appcmd.

Import (coercions) app.

(** The one-byte string "\n". *)
Definition nl : string := String (ascii_of_nat 10) EmptyString.

(** The state one [run] threads through the closures: the world and the
    variable [runErr] they all hold the address of. *)
Record RunState (World : Type) : Type :=
  { world : World;
    runErr : error }.
Arguments Build_RunState {World} _ _.
Arguments world {World} _.
Arguments runErr {World} _.

(** The flag variables [doVersion] and [helpTree] of a node, as flag
    parsing has left them when the node's [Run] is called. *)
Record FlagVars : Type :=
  { doVersion : bool;
    helpTree : bool }.

Abbreviation Info World Reader := (cobra.Command World Reader unit unit).

(** A [Run] closure, [func(cmd *cobra.Command, args []string)]. *)
Definition RunFunc (World Reader : Type) : Type :=
  Info World Reader → FlagVars → list string → RunState World → result (RunState World).

(** A help function, [func(c *cobra.Command, _ []string)]. *)
Definition HelpFunc (World Reader : Type) : Type :=
  Info World Reader → list string → World → World.

Abbreviation CobraCommand World Reader :=
  (cobra.Command World Reader (RunFunc World Reader) (HelpFunc World Reader)).

(** Modelled from the spec: the type [PositionalArgs] and its values
    [NoArgs] and [ExactArgs], declared outside the sources ("an optional
    positional-argument validator"; the manpages command takes "exactly
    one positional argument"). Its [cobra()] method hands the validator
    over unchanged. *)
Definition PositionalArgs : Type := list string → error.

(** Modelled from the spec: [NoArgs], declared outside the sources. *)
Definition NoArgs : PositionalArgs := λ args,
  match args with
  | [] => None
  | _ => Some (errorString "accepts no arguments")
  end.

(** Modelled from the spec: [ExactArgs], declared outside the sources. *)
Definition ExactArgs (n : nat) : PositionalArgs := λ args,
  if (length args =? n)%nat then None
  else Some (errorString "wrong number of arguments").

(** Modelled from the spec: the method [cobra] of [PositionalArgs],
    declared outside the sources. *)
Definition PositionalArgs_cobra (p : PositionalArgs) : list string → error := p.

(** A leaf action, [func(context.Context, app.Container) error]. *)
Definition Action (World Reader Ctx : Type) : Type :=
  Ctx → app.Container World Reader → World → result (World * error).

(** [Command]. A callback on a flag set is a function on [cobra.FlagSet];
    a normalisation callback keeps its string argument. *)
Inductive Command (World Reader Ctx : Type) : Type := mkCommand
  { Use : string;
    Aliases : list string;
    Short : string;
    Long : string;
    Args : option PositionalArgs;
    Deprecated : string;
    Hidden : bool;
    BindFlags : option (cobra.FlagSet → cobra.FlagSet);
    BindPersistentFlags : option (cobra.FlagSet → cobra.FlagSet);
    NormalizeFlag : option (string → string);
    NormalizePersistentFlag : option (string → string);
    Run : option (Action World Reader Ctx);
    SubCommands : list (Command World Reader Ctx);
    ModifyCobra : option (CobraCommand World Reader → CobraCommand World Reader * error);
    Version : string }.
Arguments mkCommand {World Reader Ctx} _ _ _ _ _ _ _ _ _ _ _ _ _ _ _.
Arguments Use {World Reader Ctx} _.
Arguments Aliases {World Reader Ctx} _.
Arguments Short {World Reader Ctx} _.
Arguments Long {World Reader Ctx} _.
Arguments Args {World Reader Ctx} _.
Arguments Deprecated {World Reader Ctx} _.
Arguments Hidden {World Reader Ctx} _.
Arguments BindFlags {World Reader Ctx} _.
Arguments BindPersistentFlags {World Reader Ctx} _.
Arguments NormalizeFlag {World Reader Ctx} _.
Arguments NormalizePersistentFlag {World Reader Ctx} _.
Arguments Run {World Reader Ctx} _.
Arguments SubCommands {World Reader Ctx} _.
Arguments ModifyCobra {World Reader Ctx} _.
Arguments Version {World Reader Ctx} _.

(** What the sources ask of the libraries outside the repository:
    [cobra] (usage text, error printing, completion scripts, execution of
    the tree), [cobra/doc] (man pages) and [text/template]. The four
    generators and [GenManTree] work on the root command of the run. *)
Record CobraLib (World Reader : Type) : Type :=
  { UsageString : Info World Reader → string;
    PrintErrln : Info World Reader → error_val → World → World;
    template_Execute : string → Info World Reader → app.Writer World → World → World * error;
    GenBashCompletion : app.Writer World → World → World * error;
    GenFishCompletion : app.Writer World → bool → World → World * error;
    GenPowerShellCompletion : app.Writer World → World → World * error;
    GenZshCompletion : app.Writer World → World → World * error;
    GenManTree : string → World → World * error;
    Execute : CobraCommand World Reader → RunState World → result (RunState World * error) }.
Arguments UsageString {World Reader} _ _.
Arguments PrintErrln {World Reader} _ _ _ _.
Arguments template_Execute {World Reader} _ _ _ _ _.
Arguments GenBashCompletion {World Reader} _ _ _.
Arguments GenFishCompletion {World Reader} _ _ _ _.
Arguments GenPowerShellCompletion {World Reader} _ _ _.
Arguments GenZshCompletion {World Reader} _ _ _.
Arguments GenManTree {World Reader} _ _ _.
Arguments Execute {World Reader} _ _ _.

(** [unicode.IsSpace] on a byte of an ASCII string. *)
Definition isSpace (c : ascii) : bool :=
  let n := nat_of_ascii c in
  ((9 <=? n) && (n <=? 13))%nat || (n =? 32)%nat.

Fixpoint trimLeftSpace (s : string) : string :=
  match s with
  | EmptyString => EmptyString
  | String c s' => if isSpace c then trimLeftSpace s' else s
  end.

(** [trimRightSpace]: [strings.TrimRightFunc(s, unicode.IsSpace)]. *)
Fixpoint trimRightSpace (s : string) : string :=
  match s with
  | EmptyString => EmptyString
  | String c s' =>
      let t := trimRightSpace s' in
      if isSpace c && String.eqb t "" then EmptyString else String c t
  end.

(** [strings.TrimSpace], on ASCII white space. *)
Definition strings_TrimSpace (s : string) : string :=
  trimRightSpace (trimLeftSpace s).

(** [strings.Join(elems, sep)]. *)
Definition strings_Join (elems : list string) (sep : string) : string :=
  String.concat sep elems.

(** [strings.HasPrefix(s, prefix)]. *)
Definition strings_HasPrefix (s prefix : string) : bool := String.prefix prefix s.

(** [strings.Repeat(s, count)] panics on a negative count. *)
Definition strings_Repeat (s : string) (count : Z) : result string :=
  if bool_decide (count < 0) then Panic "strings: negative Repeat count"
  else Ok (Nat.iter (Z.to_nat count) (String.append s) EmptyString).

Definition maxInt (i j : Z) : Z := if bool_decide (i > j) then i else j.

Definition len (s : string) : Z := Z.of_nat (String.length s).

Section WithProcess.
Context {World Reader Ctx : Type}.
Variable lib : CobraLib World Reader.

(** [execTemplate]: parsing and executing the template is the library's. *)
Definition execTemplate (writer : app.Writer World) (text : string)
    (data : Info World Reader) (w : World) : World * error :=
  template_Execute lib text data writer w.

Definition commandValidate (command : Command World Reader Ctx) : error :=
  if String.eqb (Use command) "" then
    Some (errorString "must set Command.Use")
  else if negb (String.eqb (Long command) "") && String.eqb (Short command) "" then
    Some (errorString "must set Command.Short if Command.Long is set")
  else if bool_decide (is_Some (Run command)) && (0 <? length (SubCommands command))%nat then
    Some (errorString "cannot set both Command.Run and Command.SubCommands")
  else if bool_decide (Run command = None) && (length (SubCommands command) =? 0)%nat then
    Some (errorString "must set one of Command.Run and Command.SubCommands")
  else None.

Definition normalizeFunc (f : string → string) : string → string := f.

Definition printUsage (container : app.StderrContainer World) (usage : string)
    (w : World) : World :=
  (app.Write (app.Stderr container) (usage +:+ nl) w).1.

Fixpoint maxPaddingRec (cmd : Info World Reader) (curIndentCount : Z) {struct cmd} : Z :=
  let maxPadding := curIndentCount * 2 + len (cobra.Name cmd) in
  (fix each (l : list (Info World Reader)) (maxPadding : Z) : Z :=
     match l with
     | [] => maxPadding
     | child :: l' =>
         each l' (if negb (cobra.Hidden child)
                  then maxInt maxPadding (maxPaddingRec child (curIndentCount + 1))
                  else maxPadding)
     end) (cobra.Commands cmd) maxPadding.

(** [helpTreeStringRec]: [builder] is the text written so far. *)
Fixpoint helpTreeStringRec (cmd : Info World Reader) (builder : string)
    (maxPadding curIndentCount : Z) {struct cmd} : result string :=
  if cobra.Hidden cmd then Ok builder
  else
    builder ←
      (let name := cobra.Name cmd in
       if negb (String.eqb name "") then
         indent ← strings_Repeat " " (curIndentCount * 2);
         padding ← strings_Repeat " "
                     (maxPadding - (len (cobra.Name cmd) + curIndentCount * 2));
         Ok (builder +:+ indent +:+ name +:+ padding +:+ "  " +:+ cobra.Short cmd +:+ nl)
       else Ok builder);
    (fix each (l : list (Info World Reader)) (builder : string) : result string :=
       match l with
       | [] => Ok builder
       | child :: l' =>
           builder ← helpTreeStringRec child builder maxPadding (curIndentCount + 1);
           each l' builder
       end) (cobra.Commands cmd) builder.

Definition helpTreeString (cmd : Info World Reader) : result string :=
  helpTreeStringRec cmd EmptyString (maxPaddingRec cmd 0) 0.

(** Calling the function value [f]: nil cannot be called. *)
Definition call (f : option (RunFunc World Reader)) : RunFunc World Reader :=
  match f with
  | Some run => run
  | None => λ _ _ _ _, Panic "invalid memory address or nil pointer dereference"
  end.

Definition addHelpTreeFlag (container : app.Container World Reader)
    (cmd : CobraCommand World Reader) : CobraCommand World Reader :=
  let oldRun := cobra.Run cmd in
  let cmd := cobra.set_flags cmd (cobra.BoolVar (cobra.flags cmd) "help-tree") in
  cobra.set_Run cmd (Some (λ (cmd : Info World Reader) (vars : FlagVars)
                             (args : list string) (st : RunState World),
    if helpTree vars then
      text ← helpTreeString cmd;
      let '(w, err) := app.Write (app.Stdout container) text (world st) in
      Ok (Build_RunState w err)
    else call oldRun cmd vars args st)).

(** The template given to [SetHelpTemplate]. *)
Definition helpTemplateText : string :=
  "{{.Short}}" +:+ nl +:+ nl
  +:+ "{{with .Long}}{{. | trimTrailingWhitespaces}}" +:+ nl +:+ nl
  +:+ "{{end}}{{if or .Runnable .HasSubCommands}}{{.UsageString}}{{end}}".

(** The closure given to [SetHelpFunc]. *)
Definition helpFunc (container : app.Container World Reader) : HelpFunc World Reader :=
  λ (c : Info World Reader) (_ : list string) (w : World),
    let '(w, err) := execTemplate (app.Stdout container) (cobra.helpTemplate c) c w in
    match err with
    | Some e => PrintErrln lib c e w
    | None => w
    end.

(** The closure a leaf gets as [cobraCommand.Run]. It reads the usage
    text of [cobraCommand], the object it is the [Run] field of; cobra
    calls [c.Run(c, args)], so the embedding reads that object through
    the first argument. *)
Definition leafRun (ctx : Ctx) (container : app.Container World Reader)
    (action : Action World Reader Ctx) : RunFunc World Reader :=
  λ (cobraCommand : Info World Reader) (_ : FlagVars) (args : list string)
    (st : RunState World),
    r ← action ctx (app.NewContainerForArgs container args) (world st);
    let '(w, runErr) := r in
    asErr ← errors.As runErr (Some errors.InvalidArgumentErrorPtr);
    let w := match asErr with
             | Some _ => printUsage container (UsageString lib cobraCommand) w
             | None => w
             end in
    Ok (Build_RunState w runErr).

(** The closure a node with sub-commands gets as [cobraCommand.Run]. *)
Definition subCommandRun (container : app.Container World Reader) : RunFunc World Reader :=
  λ (cobraCommand : Info World Reader) (_ : FlagVars) (args : list string)
    (st : RunState World),
    let w := printUsage container (UsageString lib cobraCommand) (world st) in
    if (length args =? 0)%nat then
      Ok (Build_RunState w (Some (errorString "Sub-command required.")))
    else
      Ok (Build_RunState w
            (Some (errorString ("Unknown sub-command: " +:+ strings_Join args " ")))).

(** The closure that replaces [cobraCommand.Run] when a version is set. *)
Definition versionRun (container : app.Container World Reader) (version : string)
    (oldRun : option (RunFunc World Reader)) : RunFunc World Reader :=
  λ (cmd : Info World Reader) (vars : FlagVars) (args : list string)
    (st : RunState World),
    if doVersion vars then
      let '(w, err) := app.Write (app.Stdout container) (version +:+ nl) (world st) in
      Ok (Build_RunState w err)
    else call oldRun cmd vars args st.

(** [commandToCobra] from the construction of [cobraCommand] to the
    assignment of the leaf closure: the node before any sub-command is
    looked at. *)
Definition newCobraCommand (ctx : Ctx) (container : app.Container World Reader)
    (command : Command World Reader Ctx) : CobraCommand World Reader :=
  let cobraPositionalArgs := PositionalArgs_cobra <$> Args command in
  let cobraCommand : CobraCommand World Reader :=
    cobra.mkCommand (Use command) (Aliases command) cobraPositionalArgs
      (Deprecated command) (Hidden command) (strings_TrimSpace (Short command))
      "" "" None cobra.newFlagSet cobra.newFlagSet None [] false false
      None None None None in
  let cobraCommand := cobra.SetHelpTemplate cobraCommand helpTemplateText in
  let cobraCommand := cobra.SetHelpFunc cobraCommand (helpFunc container) in
  let cobraCommand :=
    if negb (String.eqb (Long command) "")
    then cobra.set_Long cobraCommand (strings_TrimSpace (Long command))
    else cobraCommand in
  let cobraCommand :=
    match BindFlags command with
    | Some bind => cobra.set_flags cobraCommand (bind (cobra.flags cobraCommand))
    | None => cobraCommand
    end in
  let cobraCommand :=
    match BindPersistentFlags command with
    | Some bind =>
        cobra.set_persistentFlags cobraCommand (bind (cobra.persistentFlags cobraCommand))
    | None => cobraCommand
    end in
  let cobraCommand :=
    match NormalizeFlag command with
    | Some f =>
        cobra.set_flags cobraCommand
          (cobra.SetNormalizeFunc (cobra.flags cobraCommand) (normalizeFunc f))
    | None => cobraCommand
    end in
  let cobraCommand :=
    match NormalizePersistentFlag command with
    | Some f =>
        cobra.set_persistentFlags cobraCommand
          (cobra.SetNormalizeFunc (cobra.persistentFlags cobraCommand) (normalizeFunc f))
    | None => cobraCommand
    end in
  match Run command with
  | Some action => cobra.set_Run cobraCommand (Some (leafRun ctx container action))
  | None => cobraCommand
  end.

(** [commandToCobra] after the sub-commands: the version flag and
    [SilenceErrors]. *)
Definition addVersionFlag (container : app.Container World Reader)
    (command : Command World Reader Ctx) (cobraCommand : CobraCommand World Reader)
  : CobraCommand World Reader :=
  let cobraCommand :=
    if negb (String.eqb (Version command) "") then
      let oldRun := cobra.Run cobraCommand in
      let cobraCommand :=
        cobra.set_flags cobraCommand (cobra.BoolVar (cobra.flags cobraCommand) "version") in
      cobra.set_Run cobraCommand (Some (versionRun container (Version command) oldRun))
    else cobraCommand in
  cobra.set_SilenceErrors cobraCommand true.

(** [commandToCobra]: validation, the node itself ([newCobraCommand]),
    the sub-commands in order, each compiled by the recursive call and
    attached, then [addVersionFlag]. The first error returned by a
    recursive call is returned at once. *)
Fixpoint commandToCobra (ctx : Ctx) (container : app.Container World Reader)
    (command : Command World Reader Ctx) {struct command}
  : result (CobraCommand World Reader) :=
  match commandValidate command with
  | Some err => Err err
  | None =>
      let cobraCommand := newCobraCommand ctx container command in
      cobraCommand ←
        (if (0 <? length (SubCommands command))%nat then
           let cobraCommand := cobra.set_Run cobraCommand (Some (subCommandRun container)) in
           cobraCommand ←
             (fix each (l : list (Command World Reader Ctx))
                  (cobraCommand : CobraCommand World Reader)
                : result (CobraCommand World Reader) :=
                match l with
                | [] => Ok cobraCommand
                | subCommand :: l' =>
                    subCobraCommand ← commandToCobra ctx container subCommand;
                    each l' (cobra.AddCommand cobraCommand subCobraCommand)
                end) (SubCommands command) cobraCommand;
           Ok (addHelpTreeFlag container cobraCommand)
         else Ok cobraCommand);
      Ok (addVersionFlag container command cobraCommand)
  end.

(** The loop over the sub-commands, named: [build] compiles one. *)
Fixpoint addSubCommands
    (build : Command World Reader Ctx → result (CobraCommand World Reader))
    (l : list (Command World Reader Ctx)) (cobraCommand : CobraCommand World Reader)
  : result (CobraCommand World Reader) :=
  match l with
  | [] => Ok cobraCommand
  | subCommand :: l' =>
      subCobraCommand ← build subCommand;
      addSubCommands build l' (cobra.AddCommand cobraCommand subCobraCommand)
  end.

(** Every node of the tree passes [commandValidate]. *)
Fixpoint allValid (command : Command World Reader Ctx) : bool :=
  match commandValidate command with
  | Some _ => false
  | None =>
      (fix each (l : list (Command World Reader Ctx)) : bool :=
         match l with
         | [] => true
         | subCommand :: l' => allValid subCommand && each l'
         end) (SubCommands command)
  end.

(** [nodeOf node command]: [node] is [command] or one of its descendants. *)
Inductive nodeOf (node : Command World Reader Ctx) : Command World Reader Ctx → Prop :=
| nodeOf_self : nodeOf node node
| nodeOf_sub command subCommand :
    subCommand ∈ SubCommands command → nodeOf node subCommand → nodeOf node command.

(** cobra runs a command [c] by calling [c.Run(c, args)]. *)
Definition invoke (c : CobraCommand World Reader) (vars : FlagVars)
    (args : list string) (st : RunState World) : result (RunState World) :=
  call (cobra.Run c) (cobra.erase c) vars args st.

(** A [Command] literal: the fields not listed are zero. *)
Definition commandLiteral (use short : string) (args : option PositionalArgs)
    (hidden : bool) (run : option (Action World Reader Ctx))
    (subCommands : list (Command World Reader Ctx)) : Command World Reader Ctx :=
  mkCommand use [] short "" args "" hidden None None None None run subCommands None "".

(** The completion command [run] adds to a root with sub-commands. *)
Definition completionCommand : Command World Reader Ctx :=
  commandLiteral "completion" "Generate auto-completion scripts for commonly used shells"
    None false None
    [ commandLiteral "bash" "Generate auto-completion scripts for bash" (Some NoArgs) false
        (Some (λ _ (container : app.Container World Reader) w,
                 Ok (GenBashCompletion lib (app.Stdout container) w))) [];
      commandLiteral "fish" "Generate auto-completion scripts for fish" (Some NoArgs) false
        (Some (λ _ (container : app.Container World Reader) w,
                 Ok (GenFishCompletion lib (app.Stdout container) true w))) [];
      commandLiteral "powershell" "Generate auto-completion scripts for powershell"
        (Some NoArgs) false
        (Some (λ _ (container : app.Container World Reader) w,
                 Ok (GenPowerShellCompletion lib (app.Stdout container) w))) [];
      commandLiteral "zsh" "Generate auto-completion scripts for zsh" (Some NoArgs) false
        (Some (λ _ (container : app.Container World Reader) w,
                 Ok (GenZshCompletion lib (app.Stdout container) w))) [] ].

(** The hidden manpages command [run] adds next to it. *)
Definition manpagesCommand : Command World Reader Ctx :=
  commandLiteral "manpages" "" (Some (ExactArgs 1)) true
    (Some (λ _ (container : app.Container World Reader) w,
             outputDir ← app.Arg container 0;
             Ok (GenManTree lib outputDir w))) [].

(** [run] up to the call of [ModifyCobra]: the tree is built. *)
Definition runBuild (ctx : Ctx) (container : app.Container World Reader)
    (command : Command World Reader Ctx) : result (CobraCommand World Reader) :=
  cobraCommand ← commandToCobra ctx container command;
  let cobraCommand := cobra.SetDisableDefaultCmd cobraCommand true in
  cobraCommand ←
    (if (0 <? length (SubCommands command))%nat then
       shellCobraCommand ← commandToCobra ctx container completionCommand;
       let cobraCommand := cobra.AddCommand cobraCommand shellCobraCommand in
       manpagesCobraCommand ← commandToCobra ctx container manpagesCommand;
       Ok (cobra.AddCommand cobraCommand manpagesCobraCommand)
     else Ok cobraCommand);
  match ModifyCobra command with
  | Some modify =>
      let '(modified, err) := modify cobraCommand in
      match err with
      | Some e => Err e
      | None => Ok modified
      end
  | None => Ok cobraCommand
  end.

(** [run] from [cobraCommand.SetOut] to [cobraCommand.SetIn]: the
    streams and the arguments of the root. [app.Args(container)[1:]]
    panics on an empty argument list. *)
Definition runConfigure (container : app.Container World Reader)
    (cobraCommand : CobraCommand World Reader) : result (CobraCommand World Reader) :=
  let cobraCommand := cobra.SetOut cobraCommand (app.Stderr container) in
  allArgs ← app.Args container;
  args ← match allArgs with
         | [] => Panic "slice bounds out of range [1:0]"
         | _ :: rest => Ok rest
         end;
  let cobraCommand :=
    if (0 <? length args)%nat && strings_HasPrefix (default "" (head args)) "__complete"
    then cobra.SetOut cobraCommand (app.Stdout container)
    else cobraCommand in
  let cobraCommand := cobra.SetArgs cobraCommand args in
  let cobraCommand := cobra.SetErr cobraCommand (app.Stderr container) in
  let cobraCommand := cobra.SetIn cobraCommand (app.Stdin container) in
  Ok cobraCommand.

(** [run] up to, and without, the call to [cobraCommand.Execute()]: the
    root command as it is when [Execute] is called on it. *)
Definition runSetup (ctx : Ctx) (container : app.Container World Reader)
    (command : Command World Reader Ctx) : result (CobraCommand World Reader) :=
  cobraCommand ← runBuild ctx container command;
  runConfigure container cobraCommand.

(** [run]. An error returned while the tree is built is the result, and
    nothing has run; otherwise [Execute] runs with [runErr] nil, and the
    result is its error or else what [runErr] holds afterwards. *)
Definition run (ctx : Ctx) (container : app.Container World Reader)
    (command : Command World Reader Ctx) (w : World) : result (World * error) :=
  match runSetup ctx container command with
  | Err err => Ok (w, Some err)
  | Panic msg => Panic msg
  | Ok cobraCommand =>
      r ← Execute lib cobraCommand (Build_RunState w None);
      let '(st, err) := r in
      match err with
      | Some e => Ok (world st, Some e)
      | None => Ok (world st, runErr st)
      end
  end.

End WithProcess.

Arguments commandLiteral {World Reader Ctx} _ _ _ _ _ _.

(** Modelled from the spec: [newInvalidArgumentError], which is not among
    the sources (the invalid-argument kind wraps its delegate). *)
Definition newInvalidArgumentError (delegate : error) : error_val :=
  invalidArgumentError delegate.

(** [NewInvalidArgumentError] and [WrapInvalidArgumentError]. *)
Definition NewInvalidArgumentError (message : string) : error_val :=
  newInvalidArgumentError (Some (errorString message)).

Definition WrapInvalidArgumentError (delegate : error) : error_val :=
  newInvalidArgumentError delegate.

(** *** The rest of the package *)

(** [BindMultiple]: the functions are called on the flag set in turn. *)
Definition BindMultiple (bindFuncs : list (cobra.FlagSet → cobra.FlagSet))
  : cobra.FlagSet → cobra.FlagSet :=
  λ flagSet, foldl (λ flagSet bindFunc, bindFunc flagSet) flagSet bindFuncs.

(** All bytes are below 128. *)
Definition isASCII (s : string) : bool :=
  appext.allBytes (λ c, (nat_of_ascii c <? 128)%nat) s.

(** The last byte is white space. *)
Fixpoint endsWithSpace (s : string) : bool :=
  match s with
  | EmptyString => false
  | String c EmptyString => isSpace c
  | String _ s' => endsWithSpace s'
  end.


(** The usage line, the aliases, the deprecation text and the hidden
    flag of each node of a tree. *)
Inductive MetaTree : Type :=
| metaNode (use : string) (aliases : list string) (deprecated : string)
    (hidden : bool) (subs : list MetaTree).

Section Listing.
Context {World Reader Ctx : Type}.

(** [newRunFunc] and the package's function [Run], which is [app.Run]
    around [run]; it is [RunCommand] here, [Run] being the field of
    [Command]. *)
Definition newRunFunc (lib : CobraLib World Reader) (command : Command World Reader Ctx)
  : Ctx → app.Container World Reader → World → result (World * error) :=
  λ ctx container, run lib ctx container command.

Definition RunCommand (lib : CobraLib World Reader)
    (interrupt_Handle : Ctx → Ctx)
    (printError : app.StderrContainer World → error_val → World → World)
    (ctx : Ctx) (container : app.Container World Reader)
    (command : Command World Reader Ctx) (w : World) : result (World * error) :=
  app.Run interrupt_Handle printError ctx container (newRunFunc lib command) w.



Fixpoint commandMeta (command : Command World Reader Ctx) : MetaTree :=
  metaNode (Use command) (Aliases command) (Deprecated command) (Hidden command)
    ((fix each (l : list (Command World Reader Ctx)) : list MetaTree :=
        match l with
        | [] => []
        | sub :: l' => commandMeta sub :: each l'
        end) (SubCommands command)).

Fixpoint cobraMeta {R HF : Type} (c : cobra.Command World Reader R HF) : MetaTree :=
  metaNode (cobra.Use c) (cobra.Aliases c) (cobra.Deprecated c) (cobra.Hidden c)
    ((fix each (l : list (cobra.Command World Reader R HF)) : list MetaTree :=
        match l with
        | [] => []
        | sub :: l' => cobraMeta sub :: each l'
        end) (cobra.commands c)).

End Listing.

End appcmd.

(** ** A small process and two command trees

    A world that is the log of the writes made so far, a library that
    runs the root command with no flag set, and two trees: used to
    evaluate the definitions above on concrete input. *)

Module example.

Import (coercions) app.

Inductive stream : Type := stdout | stderr.

Definition World : Type := list (stream * string).

Definition writer (s : stream) : app.Writer World :=
  {| app.Write := λ data w, (w ++ [(s, data)], None) |}.

Definition container (args : list string) : app.Container World unit :=
  app.newContainer
    {| app.Env := λ _, ""; app.ForEachEnv := [] |}
    {| app.Stdin := tt |}
    {| app.Stdout := writer stdout |}
    {| app.Stderr := writer stderr |}
    (app.NewArgContainer args).

Definition noFlags : appcmd.FlagVars :=
  {| appcmd.doVersion := false; appcmd.helpTree := false |}.

(** A one-level dispatch: the child named by the first argument runs
    with the remaining ones, else the root runs with all of them; no
    flag is set and the dispatch itself returns no error. *)
Definition dispatch (c : appcmd.CobraCommand World unit) (st : appcmd.RunState World)
  : result (appcmd.RunState World * error) :=
  let args := default [] (cobra.args c) in
  let target :=
    match args with
    | name :: rest =>
        match List.find (λ sub, String.eqb (cobra.Name sub) name) (cobra.commands c) with
        | Some sub => (sub, rest)
        | None => (c, args)
        end
    | [] => (c, args)
    end in
  st' ← appcmd.invoke target.1 noFlags target.2 st;
  Ok (st', None).

Definition lib : appcmd.CobraLib World unit :=
  {| appcmd.UsageString := λ c, "Usage: " +:+ cobra.Use c;
     appcmd.PrintErrln := λ _ _ w, w;
     appcmd.template_Execute := λ _ _ _ w, (w, None);
     appcmd.GenBashCompletion := λ _ w, (w, None);
     appcmd.GenFishCompletion := λ _ _ w, (w, None);
     appcmd.GenPowerShellCompletion := λ _ w, (w, None);
     appcmd.GenZshCompletion := λ _ w, (w, None);
     appcmd.GenManTree := λ _ w, (w, None);
     appcmd.Execute := dispatch |}.

(** A leaf whose action rejects its arguments. *)
Definition rejectCommand : appcmd.Command World unit unit :=
  appcmd.commandLiteral "reject" "Rejects its arguments" None false
    (Some (λ _ _ w, Ok (w, Some (appcmd.NewInvalidArgumentError "bad argument")))) [].

(** The same leaf with a version. *)
Definition versionedCommand : appcmd.Command World unit unit :=
  appcmd.mkCommand "tool" [] "A tool" "" None "" false None None None None
    (Some (λ _ _ w, Ok (w, Some (appcmd.NewInvalidArgumentError "bad argument"))))
    [] None "1.2.3".

(** A parent of that leaf. *)
Definition parentCommand : appcmd.Command World unit unit :=
  appcmd.commandLiteral "root" "The root" None false None [rejectCommand].


(** A parent with a child that sets neither an action nor children. *)
Definition brokenCommand : appcmd.Command World unit unit :=
  appcmd.commandLiteral "root" "The root" None false None
    [rejectCommand; appcmd.commandLiteral "empty" "" None false None []].

(** A [cobra.Command] with every field zero. *)
Definition zeroCobraCommand : appcmd.CobraCommand World unit :=
  cobra.mkCommand "" [] None "" false "" "" "" None cobra.newFlagSet cobra.newFlagSet
    None [] false false None None None None.

(** The compiled node of [command] over [container args]. *)
Definition compiled (args : list string) (command : appcmd.Command World unit unit)
  : appcmd.CobraCommand World unit :=
  match appcmd.commandToCobra lib tt (container args) command with
  | Ok n => n
  | _ => zeroCobraCommand
  end.

(** The root as [run] hands it to [Execute], for the process arguments
    [args]. *)
Definition configured (command : appcmd.Command World unit unit) (args : list string)
  : appcmd.CobraCommand World unit :=
  match appcmd.runSetup lib tt (container args) command with
  | Ok n => n
  | _ => zeroCobraCommand
  end.

(** Where the text "x" lands when written to the output sink of [c]. *)
Definition sinkOf (c : appcmd.CobraCommand World unit) : option (World * error) :=
  (λ w, app.Write w "x" []) <$> cobra.outWriter c.

End example.

(** * Properties *)

(** ** Exit codes *)

Section ErrorFacts.

(** Induction on error trees, through the members of a multi-error. *)
Lemma error_val_tree_ind (P : error_val → Prop) :
  (∀ msg, P (errorString msg)) →
  (∀ msg inner, (∀ e, inner = Some e → P e) → P (wrapError msg inner)) →
  (∀ errs, Forall (λ o, ∀ e, o = Some e → P e) errs → P (joinError errs)) →
  (∀ c inner, (∀ e, inner = Some e → P e) → P (appError c inner)) →
  (∀ inner, (∀ e, inner = Some e → P e) → P (invalidArgumentError inner)) →
  ∀ e, P e.
Proof.
  intros Hs Hw Hj Ha Hi.
  fix IH 1. intros [msg | msg inner | errs | c inner | inner].
  - apply Hs.
  - apply Hw. destruct inner as [e' |]; intros e Heq; [| discriminate].
    pose proof (IH e') as He'. injection Heq as <-. exact He'.
  - apply Hj. revert errs. fix IHerrs 1. intros [| o errs]; constructor.
    + destruct o as [e' |]; intros e Heq; [| discriminate].
      pose proof (IH e') as He'. injection Heq as <-. exact He'.
    + apply IHerrs.
  - apply Ha. destruct inner as [e' |]; intros e Heq; [| discriminate].
    pose proof (IH e') as He'. injection Heq as <-. exact He'.
  - apply Hi. destruct inner as [e' |]; intros e Heq; [| discriminate].
    pose proof (IH e') as He'. injection Heq as <-. exact He'.
Qed.

Lemma as_noAppError e : errors.noAppError e = true → errors.as_ e errors.AppErrorPtr = None.
Proof.
  induction e as [msg | msg inner IH | errs IH | c inner IH | inner IH]
    using error_val_tree_ind; simpl; intros Hno; try done.
  - destruct inner as [e |]; [by apply IH | done].
  - induction IH as [| o errs Ho _ IHerrs]; [done |].
    destruct o as [e |]; [| by apply IHerrs].
    apply andb_true_iff in Hno as [He Hrest].
    rewrite (Ho e eq_refl He). by apply IHerrs.
  - destruct inner as [e |]; [by apply IH | done].
Qed.

Lemma as_join_skip before e after :
  forallb errors.noAppErrorIn before = true →
  errors.as_ (joinError (before ++ Some e :: after)) errors.AppErrorPtr
  = match errors.as_ e errors.AppErrorPtr with
    | Some found => Some found
    | None => errors.as_ (joinError after) errors.AppErrorPtr
    end.
Proof.
  simpl. induction before as [| o before IH]; simpl; intros Hno; [done |].
  apply andb_true_iff in Hno as [Ho Hrest].
  destruct o as [e' |]; [| by apply IH].
  simpl in Ho. rewrite (as_noAppError e' Ho). by apply IH.
Qed.

Lemma as_wrapLayers layers c inner :
  forallb errors.layerOk layers = true →
  errors.as_ (errors.wrapLayers layers (appError c inner)) errors.AppErrorPtr
  = Some (appError c inner).
Proof.
  induction layers as [| l layers IH]; simpl; intros Hok; [done |].
  apply andb_true_iff in Hok as [Hl Hrest]. specialize (IH Hrest).
  destruct l as [msg | | before after]; simpl in *; try done.
  change (errors.as_ (joinError (before ++
            Some (errors.wrapLayers layers (appError c inner)) :: after))
            errors.AppErrorPtr = Some (appError c inner)).
  rewrite as_join_skip by done. by rewrite IH.
Qed.

(** C1. [GetExitCode] returns 0 on nil; it returns the carried code [c]
    on an exit-coded error and on that error under any number of wrapping
    layers ([%w] wrappers, invalid-argument wrappers, multi-errors in
    which no earlier member carries a code of its own), for every [c];
    it returns 1 on every error that holds no exit-coded error. Each
    result is a returned value: the call does not panic. *)
Theorem GetExitCode_spec :
  app.GetExitCode None = Ok 0
  ∧ (∀ (layers : list errors.layer) (c : Z) (inner : error),
       forallb errors.layerOk layers = true →
       app.GetExitCode (Some (errors.wrapLayers layers (appError c inner))) = Ok c)
  ∧ (∀ e : error_val,
       errors.noAppError e = true → app.GetExitCode (Some e) = Ok 1).
Proof.
  split; [done |]. split.
  - intros layers c inner Hok. unfold app.GetExitCode, errors.As. simpl.
    by rewrite as_wrapLayers.
  - intros e Hno. unfold app.GetExitCode, errors.As. simpl.
    by rewrite as_noAppError.
Qed.

Lemma GetExitCode_spec_witness :
  app.GetExitCode
    (Some (errors.wrapLayers
             [errors.Wrapf "outer"; errors.Joined [Some (errorString "first")] [];
              errors.InvalidArgument]
             (appError 3 (Some (errorString "boom"))))) = Ok 3
  ∧ app.GetExitCode (Some (wrapError "plain" (Some (errorString "cause")))) = Ok 1.
Proof.
  split.
  - apply (proj1 (proj2 GetExitCode_spec)). reflexivity.
  - apply (proj2 (proj2 GetExitCode_spec)). reflexivity.
Defined.

(** Every error is of one of two kinds: it holds no exit-coded error, or
    it is an exit-coded error under admissible layers. *)
Lemma error_val_cases e :
  errors.noAppError e = true
  ∨ ∃ layers c inner,
      forallb errors.layerOk layers = true
      ∧ e = errors.wrapLayers layers (appError c inner).
Proof.
  induction e as [msg | msg inner IH | errs IH | c inner IH | inner IH]
    using error_val_tree_ind.
  - by left.
  - destruct inner as [e |]; [| by left].
    destruct (IH e eq_refl) as [Hno | (layers & c & inner & Hok & ->)]; [by left |].
    right. exists (errors.Wrapf msg :: layers), c, inner. by split.
  - induction IH as [| o errs Ho _ IHerrs]; [by left |].
    destruct o as [e |].
    + destruct (Ho e eq_refl) as [Hno | (layers & c & inner & Hok & ->)].
      * destruct IHerrs as [Hrest | (layers & c & inner & Hok & Heq)].
        -- left. simpl in *. by rewrite Hno.
        -- right. destruct layers as [| [msg | | before after] layers]; try done.
           simpl in Heq. injection Heq as ->.
           exists (errors.Joined (Some e :: before) after :: layers), c, inner.
           split; [| done]. simpl in *. by rewrite Hno.
      * right.
        exists (errors.Joined [] errs :: layers), c, inner. by split.
    + destruct IHerrs as [Hrest | (layers & c & inner & Hok & Heq)]; [by left |].
      right. destruct layers as [| [msg | | before after] layers]; try done.
      simpl in Heq. injection Heq as ->.
      exists (errors.Joined (None :: before) after :: layers), c, inner. by split.
  - right. by exists [], c, inner.
  - destruct inner as [e |]; [| by left].
    destruct (IH e eq_refl) as [Hno | (layers & c & inner & Hok & ->)]; [by left |].
    right. exists (errors.InvalidArgument :: layers), c, inner. by split.
Qed.

End ErrorFacts.

(** ** The application-name environment prefix *)

Section PrefixFacts.

Lemma replaceAll_dash s :
  appext.strings_ReplaceAll s "-" "_"
  = appext.mapBytes (λ c, if Ascii.eqb c "-" then "_"%char else c) s.
Proof.
  unfold appext.strings_ReplaceAll.
  induction s as [| c s IH]; [done |].
  cbn [appext.replaceAll_from appext.mapBytes String.prefix].
  destruct (ascii_dec "-" c) as [<- | Hne].
  - replace (String.prefix "" s) with true by (by destruct s).
    simpl. by rewrite IH.
  - rewrite IH. destruct (Ascii.eqb_spec c "-") as [-> | _]; [done | done].
Qed.

Lemma upper_dash_byte c :
  appext.appNameByte c = true →
  appext.upper_byte (if Ascii.eqb c "-" then "_"%char else c) = appext.prefixByte c.
Proof.
  destruct c as [[] [] [] [] [] [] [] []]; vm_compute; congruence.
Qed.

Lemma getAppNameEnvPrefix_bytes s :
  appext.allBytes appext.appNameByte s = true →
  appext.strings_ToUpper (appext.strings_ReplaceAll s "-" "_")
  = appext.mapBytes appext.prefixByte s.
Proof.
  rewrite replaceAll_dash.
  induction s as [| c s IH]; [done |]. simpl.
  intros [Hc Hs]%andb_true_iff. by rewrite upper_dash_byte, IH.
Qed.

Lemma collapseRuns_noAdjacent s inRun :
  appext.noAdjacentSeparators s = true →
  (inRun = true → match s with
                  | EmptyString => True
                  | String c _ => appext.alphanumeric c = true
                  end) →
  appext.collapseRuns inRun s = appext.mapBytes appext.prefixByte s.
Proof.
  revert inRun. induction s as [| c s IH]; [done |].
  intros inRun Hadj Hrun. cbn [appext.collapseRuns appext.mapBytes].
  unfold appext.prefixByte at 1.
  assert (Htail : appext.noAdjacentSeparators s = true).
  { simpl in Hadj. destruct s; [done |]. by apply andb_true_iff in Hadj as [_ ?]. }
  destruct (appext.alphanumeric c) eqn:Hc.
  - f_equal. by apply IH.
  - destruct inRun; [by specialize (Hrun eq_refl); congruence |].
    f_equal. apply IH; [done |]. intros _.
    simpl in Hadj. destruct s as [| d s]; [done |].
    apply andb_true_iff in Hadj as [Hcd _]. by rewrite Hc in Hcd.
Qed.

(** C7, the claim as stated fails: "a--b" is a valid application name,
    the code turns it into the prefix "A__B_", and the name upper-cased
    with its run of non-alphanumeric characters collapsed to one '_' and
    a trailing '_' appended is "A_B_". *)
Lemma getAppNameEnvPrefix_keeps_runs :
  appext.validateAppName "a--b" = None
  ∧ appext.getAppNameEnvPrefix "a--b" = "A__B_"
  ∧ appext.specEnvPrefix "a--b" = "A_B_"
  ∧ appext.getAppNameEnvPrefix "a--b" ≠ appext.specEnvPrefix "a--b".
Proof. by vm_compute. Qed.

(** C7, amended. For every valid application name the prefix is the name
    with each alphanumeric byte upper-cased and each other byte ('-' or
    '_') turned into one '_', followed by a trailing '_'; it is the key
    prefix of the directory lookups; and it agrees with the collapsed
    form of the spec whenever the name has no two neighbouring
    non-alphanumeric bytes. *)
Theorem getAppNameEnvPrefix_spec (appName : string) :
  appext.validateAppName appName = None →
  appext.getAppNameEnvPrefix appName
  = appext.mapBytes appext.prefixByte appName +:+ "_"
  ∧ (∀ envSuffix : string,
       appext.dirEnvKey appName envSuffix
       = (appext.mapBytes appext.prefixByte appName +:+ "_") +:+ envSuffix)
  ∧ (∀ (container : app.EnvContainer) join envSuffix getBaseDirPath,
       app.Env container
         ((appext.mapBytes appext.prefixByte appName +:+ "_") +:+ envSuffix) ≠ "" →
       appext.getDirPath container appName join envSuffix getBaseDirPath
       = app.Env container
           ((appext.mapBytes appext.prefixByte appName +:+ "_") +:+ envSuffix))
  ∧ (appext.noAdjacentSeparators appName = true →
     appext.getAppNameEnvPrefix appName = appext.specEnvPrefix appName).
Proof.
  unfold appext.validateAppName. intros Hvalid.
  destruct (String.eqb appName ""); [done |].
  destruct (appext.allBytes appext.appNameByte appName) eqn:Hall; [| done].
  assert (Hpre : appext.getAppNameEnvPrefix appName
                 = appext.mapBytes appext.prefixByte appName +:+ "_").
  { unfold appext.getAppNameEnvPrefix. by rewrite getAppNameEnvPrefix_bytes. }
  split; [done |]. split; [| split].
  - intros envSuffix. unfold appext.dirEnvKey. by rewrite Hpre.
  - intros container join envSuffix getBaseDirPath Hset.
    unfold appext.getDirPath, appext.dirEnvKey. rewrite Hpre.
    destruct (String.eqb_spec
                (app.Env container
                   ((appext.mapBytes appext.prefixByte appName +:+ "_") +:+ envSuffix))
                ""); [done | done].
  - intros Hadj. rewrite Hpre. unfold appext.specEnvPrefix.
    by rewrite collapseRuns_noAdjacent.
Qed.

Lemma getAppNameEnvPrefix_spec_witness :
  appext.getAppNameEnvPrefix "my-app_2"
  = appext.mapBytes appext.prefixByte "my-app_2" +:+ "_"
  ∧ appext.getAppNameEnvPrefix "my-app_2" = appext.specEnvPrefix "my-app_2".
Proof.
  pose proof (getAppNameEnvPrefix_spec "my-app_2" eq_refl) as (H1 & _ & _ & H4).
  split; [exact H1 | exact (H4 eq_refl)].
Defined.

End PrefixFacts.

(** ** Containers *)

Section ContainerFacts.

Import (coercions) app.

Global Instance string_le_total : Total app.string_le.
Proof. intros s t. apply String.leb_total. Qed.

Global Instance string_le_antisymm : AntiSymm (=) app.string_le.
Proof. intros s t. apply String.leb_antisym. Qed.

Lemma ascii_compare_trans_le a b c :
  Ascii.compare a b ≠ Gt → Ascii.compare b c ≠ Gt → Ascii.compare a c ≠ Gt.
Proof.
  unfold Ascii.compare. rewrite !N.compare_le_iff. apply N.le_trans.
Qed.

Lemma string_compare_refl s : String.compare s s = Eq.
Proof.
  induction s as [| c s IH]; [done |]. simpl.
  unfold Ascii.compare. by rewrite N.compare_refl.
Qed.

Lemma string_compare_eq s t : String.compare s t = Eq ↔ s = t.
Proof.
  split; [apply String.compare_eq_iff | intros ->; apply string_compare_refl].
Qed.

Global Instance string_le_trans : Transitive app.string_le.
Proof.
  unfold app.string_le, String.leb. intros s.
  induction s as [| a s IH]; intros [| b t] [| c u]; simpl; try done.
  destruct (Ascii.compare a b) eqn:Hab; [| | done].
  - apply Ascii.compare_eq_iff in Hab as ->.
    destruct (Ascii.compare b c); [| done | done]. apply IH.
  - intros _. destruct (Ascii.compare b c) eqn:Hbc; [| | done].
    + apply Ascii.compare_eq_iff in Hbc as <-. by rewrite Hab.
    + intros _. unfold Ascii.compare in *.
      rewrite N.compare_lt_iff in Hab, Hbc.
      assert (Hac : (N_of_ascii a < N_of_ascii c)%N) by (by etrans).
      apply N.compare_lt_iff in Hac. by rewrite Hac.
Qed.

(** The list [Environ] sorts: one entry per callback, in callback order. *)
Lemma environ_fold (l : list (string * string)) (acc : list string) :
  foldl (λ (environ : list string) kv, environ ++ [kv.1 +:+ "=" +:+ kv.2]) acc l
  = acc ++ ((λ kv, kv.1 +:+ "=" +:+ kv.2) <$> l).
Proof.
  revert acc. induction l as [| kv l IH]; intros acc; simpl.
  - by rewrite app_nil_r.
  - rewrite IH. by rewrite <- app_assoc.
Qed.

Lemma NoDup_fst_filter {A B} (P : A * B → Prop) `{!∀ x, Decision (P x)}
    (l : list (A * B)) :
  NoDup (l.*1) → NoDup ((filter P l).*1).
Proof.
  intros Hnd. apply (sublist_NoDup _ (l.*1)); [exact Hnd | apply fmap_sublist, sublist_filter].
Qed.

Lemma filter_all_id {A} (P : A → Prop) `{!∀ x, Decision (P x)} (l : list A) :
  (∀ x, x ∈ l → P x) → filter P l = l.
Proof.
  induction l as [| x l IH]; intros Hall; [done |].
  rewrite filter_cons_True by (apply Hall; left).
  f_equal. apply IH. intros y Hy. apply Hall. by right.
Qed.

(** What the enumeration of a container of this package yields: the
    bindings of the map it was built from whose value is not empty, each
    once. *)
Lemma ForEachEnv_NewEnvContainer (m : gmap string string) :
  NoDup (app.ForEachEnv (app.NewEnvContainer m)).*1
  ∧ ∀ k v, (k, v) ∈ app.ForEachEnv (app.NewEnvContainer m) ↔ m !! k = Some v ∧ v ≠ "".
Proof.
  unfold app.NewEnvContainer, app.newEnvContainer. simpl.
  unfold app.envContainer_ForEachEnv. simpl. split.
  - apply NoDup_fst_filter, NoDup_fst_map_to_list.
  - intros k v. rewrite list_elem_of_filter, elem_of_map_to_list.
    rewrite map_lookup_filter_Some. simpl. tauto.
Qed.

Lemma Env_NewEnvContainer (m : gmap string string) (key : string) :
  app.Env (app.NewEnvContainer m) key = default "" (m !! key).
Proof.
  unfold app.NewEnvContainer, app.newEnvContainer. simpl.
  unfold app.envContainer_Env. simpl.
  destruct (m !! key) as [v |] eqn:Hm.
  - destruct (decide (v = "")) as [-> | Hv].
    + rewrite (proj2 (map_lookup_filter_None _ _ _)); [done |].
      right. intros v Hv. simpl. rewrite Hm in Hv. by injection Hv as <-; auto.
    + by rewrite (proj2 (map_lookup_filter_Some _ _ _ _) (conj Hm Hv)).
  - by rewrite (proj2 (map_lookup_filter_None _ _ _) (or_introl Hm)).
Qed.

Lemma Environ_Permutation (c : app.EnvContainer) :
  app.Environ c ≡ₚ (λ kv, kv.1 +:+ "=" +:+ kv.2) <$> app.ForEachEnv c.
Proof.
  unfold app.Environ, app.sort_Strings.
  rewrite merge_sort_Permutation. by rewrite environ_fold.
Qed.

Lemma Environ_StronglySorted (c : app.EnvContainer) :
  StronglySorted app.string_le (app.Environ c).
Proof. unfold app.Environ, app.sort_Strings. apply (StronglySorted_merge_sort _). Qed.

(** C8. For every environment container, [Environ] is sorted for the
    byte-wise order of strings and holds exactly one "KEY=VALUE" string
    per enumerated entry; for a container this package builds from a map,
    these are exactly the bindings of the map whose value is not empty,
    so that no entry with an empty value is included. *)
Theorem Environ_sorted_nonempty :
  (∀ c : app.EnvContainer,
     StronglySorted app.string_le (app.Environ c)
     ∧ app.Environ c ≡ₚ (λ kv, kv.1 +:+ "=" +:+ kv.2) <$> app.ForEachEnv c)
  ∧ (∀ m : gmap string string,
       app.Environ (app.NewEnvContainer m)
       ≡ₚ (λ kv, kv.1 +:+ "=" +:+ kv.2) <$> map_to_list (filter (λ kv, kv.2 ≠ "") m))
  ∧ (∀ (m : gmap string string) (s : string),
       s ∈ app.Environ (app.NewEnvContainer m)
       ↔ ∃ k v, m !! k = Some v ∧ v ≠ "" ∧ s = k +:+ "=" +:+ v).
Proof.
  split; [| split].
  - intros c. split; [apply Environ_StronglySorted | apply Environ_Permutation].
  - intros m. rewrite Environ_Permutation.
    unfold app.NewEnvContainer, app.newEnvContainer. simpl.
    unfold app.envContainer_ForEachEnv. simpl.
    replace (filter (λ kv : string * string, kv.2 ≠ "")
               (map_to_list (filter (λ kv : string * string, kv.2 ≠ "") m)))
      with (map_to_list (filter (λ kv : string * string, kv.2 ≠ "") m)); [done |].
    symmetry. apply filter_all_id. intros [k v] Hin.
    apply elem_of_map_to_list, map_lookup_filter_Some in Hin. tauto.
  - intros m s. rewrite (Environ_Permutation (app.NewEnvContainer m)).
    rewrite list_elem_of_fmap. split.
    + intros ([k v] & -> & Hin).
      apply ForEachEnv_NewEnvContainer in Hin as [Hm Hv]. by exists k, v.
    + intros (k & v & Hm & Hv & ->). exists (k, v). split; [done |].
      by apply ForEachEnv_NewEnvContainer.
Qed.

(** X19. [Environ] does not depend on the order in which the container
    enumerates its entries (the iteration order of a Go map is not
    fixed). *)
Lemma Environ_order_irrelevant (c1 c2 : app.EnvContainer) :
  app.ForEachEnv c1 ≡ₚ app.ForEachEnv c2 → app.Environ c1 = app.Environ c2.
Proof.
  intros Hperm.
  apply (StronglySorted_unique app.string_le); try apply Environ_StronglySorted.
  by rewrite !Environ_Permutation, Hperm.
Qed.

(** The map [EnvironMap] builds from an enumeration without repeated
    keys. *)
Lemma EnvironMap_lookup (c : app.EnvContainer) (k v : string) :
  NoDup (app.ForEachEnv c).*1 →
  app.EnvironMap c !! k = Some v ↔ (k, v) ∈ app.ForEachEnv c ∧ v ≠ "".
Proof.
  unfold app.EnvironMap. generalize (app.ForEachEnv c). clear c.
  induction l as [| [k' v'] l IH] using rev_ind; intros Hnd.
  - simpl. rewrite lookup_empty. split; [done |]. by intros [?%elem_of_nil _].
  - rewrite foldl_snoc. rewrite fmap_app in Hnd. simpl in Hnd.
    apply NoDup_app in Hnd as (Hl & Hnotin & _). specialize (IH Hl).
    rewrite elem_of_app, list_elem_of_singleton. simpl.
    destruct (decide (v' ≠ "")) as [Hv' | Hv'].
    + rewrite lookup_insert_Some, IH. split.
      * intros [[-> ->] | [Hne [Hin Hv]]]; [by auto | by auto].
      * intros [[Hin | [= -> ->]] Hv]; [| by left].
        right. split; [| done]. intros ->.
        apply (Hnotin k); [| apply list_elem_of_singleton; done].
        apply list_elem_of_fmap. by exists (k, v).
    + rewrite IH. split; [by intros [? ?]; auto |].
      intros [[Hin | [= -> ->]] Hv]; [done |]. by destruct Hv'.
Qed.

(** C9. Building a container from a map and reading it back with
    [EnvironMap] gives the map without its empty-valued keys; the map
    {"A":"1","B":""} comes back as {"A":"1"}. *)
Theorem EnvironMap_NewEnvContainer :
  (∀ m : gmap string string,
     app.EnvironMap (app.NewEnvContainer m) = filter (λ kv, kv.2 ≠ "") m)
  ∧ app.EnvironMap (app.NewEnvContainer (<["A" := "1"]> (<["B" := ""]> ∅)))
    = <["A" := "1"]> ∅.
Proof.
  assert (Hgen : ∀ m : gmap string string,
            app.EnvironMap (app.NewEnvContainer m) = filter (λ kv, kv.2 ≠ "") m).
  { intros m. apply map_eq. intros k. apply option_eq. intros v.
    destruct (ForEachEnv_NewEnvContainer m) as [Hnd Hin].
    rewrite EnvironMap_lookup by done. rewrite Hin, map_lookup_filter_Some. simpl.
    tauto. }
  split; [exact Hgen |].
  rewrite Hgen. apply map_eq. intros k. apply option_eq. intros v.
  rewrite map_lookup_filter_Some, !lookup_insert_Some, lookup_empty. simpl.
  split.
  - intros [[[<- <-] | [Hne [[<- <-] | [_ ?]]]] Hv]; [by left | done | done].
  - intros [[<- <-] | [_ ?]]; [| done]. split; [by left | done].
Qed.

Lemma argContainer_Arg_nat (a : app.argContainer) (i : nat) :
  app.argContainer_Arg a (Z.of_nat i)
  = match app.values a !! i with
    | Some s => Ok s
    | None => Panic "index out of range"
    end.
Proof.
  unfold app.argContainer_Arg. rewrite Nat2Z.id. case_bool_decide as Hi; [done |].
  rewrite (proj2 (lookup_ge_None (app.values a) i)); [done | lia].
Qed.

Lemma result_mapM_cons {A B} (f : A → result B) (x : A) (l : list A) :
  mapM f (x :: l) = y ← f x; k ← mapM f l; mret (y :: k).
Proof. reflexivity. Qed.

Lemma Args_argContainer (pre l : list string) :
  mapM (λ i : nat, app.argContainer_Arg (app.newArgContainer (pre ++ l)) (Z.of_nat i))
       (seq (length pre) (length l)) = Ok l.
Proof.
  revert pre. induction l as [| s l IH]; intros pre; [done |].
  change (seq (length pre) (length (s :: l)))
    with (length pre :: seq (S (length pre)) (length l)).
  rewrite result_mapM_cons, argContainer_Arg_nat.
  change (app.values (app.newArgContainer (pre ++ s :: l))) with (pre ++ s :: l).
  rewrite list_lookup_middle by done.
  specialize (IH (pre ++ [s])). rewrite <- app_assoc in IH. simpl in IH.
  rewrite length_app in IH. simpl in IH. rewrite Nat.add_1_r in IH.
  simpl. by rewrite IH.
Qed.

Lemma Args_NewArgContainer (l : list string) :
  app.Args (app.NewArgContainer l) = Ok l.
Proof.
  unfold app.Args, app.NewArgContainer. simpl. unfold app.argContainer_NumArgs. simpl.
  rewrite bool_decide_eq_false_2 by lia. rewrite Nat2Z.id.
  apply (Args_argContainer [] l).
Qed.

(** C10. [NewContainerForArgs] replaces the argument facet and nothing
    else: environment lookup and enumeration (hence [Environ] and
    [EnvironMap]), stdin, stdout and stderr of the result are those of
    the base container, while [NumArgs], [Arg] and [Args] are those of
    the replacement list. Containers are values here and the function
    only reads its argument, so the base container is the same before
    and after the call. *)
Theorem NewContainerForArgs_frame {World Reader : Type}
    (container : app.Container World Reader) (newArgs : list string) :
  let c := app.NewContainerForArgs container newArgs in
  app.Env c = app.Env container
  ∧ app.ForEachEnv c = app.ForEachEnv container
  ∧ app.Environ c = app.Environ container
  ∧ app.EnvironMap c = app.EnvironMap container
  ∧ app.Stdin c = app.Stdin container
  ∧ app.Stdout c = app.Stdout container
  ∧ app.Stderr c = app.Stderr container
  ∧ app.NumArgs c = Z.of_nat (length newArgs)
  ∧ (∀ i : nat, app.Arg c (Z.of_nat i)
                = match newArgs !! i with
                  | Some s => Ok s
                  | None => Panic "index out of range"
                  end)
  ∧ (∀ i : Z, i < 0 → app.Arg c i = Panic "index out of range")
  ∧ app.Args c = Ok newArgs.
Proof.
  simpl. repeat split.
  - intros i. apply argContainer_Arg_nat.
  - intros i Hi. unfold app.argContainer_Arg. simpl.
    by rewrite bool_decide_eq_false_2 by lia.
  - apply Args_NewArgContainer.
Qed.

End ContainerFacts.

(** ** The command tree *)

Section CommandFacts.

Import (coercions) app.

Context {World Reader Ctx : Type}.
Variable lib : appcmd.CobraLib World Reader.
Variable ctx : Ctx.
Variable container : app.Container World Reader.

Implicit Types command node : appcmd.Command World Reader Ctx.
Implicit Types c n : appcmd.CobraCommand World Reader.

(** Induction on command trees, through the sub-commands. *)
Lemma Command_tree_ind (P : appcmd.Command World Reader Ctx → Prop) :
  (∀ command, Forall P (appcmd.SubCommands command) → P command) →
  ∀ command, P command.
Proof.
  intros Hnode. fix IH 1. intros command. apply Hnode.
  destruct command as [? ? ? ? ? ? ? ? ? ? ? ? subCommands ? ?]. simpl.
  induction subCommands as [| subCommand subCommands IHsub]; constructor.
  - apply IH.
  - exact IHsub.
Qed.

(** *** Validation *)

Lemma commandValidate_None command :
  appcmd.commandValidate command = None
  ↔ ¬ (appcmd.Use command = ""
       ∨ (appcmd.Long command ≠ "" ∧ appcmd.Short command = "")
       ∨ (is_Some (appcmd.Run command) ∧ appcmd.SubCommands command ≠ [])
       ∨ (appcmd.Run command = None ∧ appcmd.SubCommands command = [])).
Proof.
  unfold appcmd.commandValidate.
  destruct (String.eqb_spec (appcmd.Use command) "") as [HU | HU];
    [split; [done | intros H; destruct H; by left] |].
  destruct (String.eqb_spec (appcmd.Long command) "") as [HL | HL];
    destruct (String.eqb_spec (appcmd.Short command) "") as [HS | HS]; simpl;
    try (split; [done | intros H; destruct H; right; left; done]).
  all: destruct (appcmd.Run command) as [action |] eqn:HR;
    destruct (appcmd.SubCommands command) as [| sub subs] eqn:HSub; simpl;
    try rewrite bool_decide_eq_true_2 by eauto;
    try rewrite bool_decide_eq_false_2 by (by intros [? ?]);
    simpl.
  all: split; try done.
  all: try (intros _ [? | [[? ?] | [[[? ?] ?] | [? ?]]]]; congruence).
  all: try (intros H; destruct H; right; right; left; split; [eauto | done]).
  all: try (intros H; destruct H; right; right; right; done).
Qed.

Lemma commandToCobra_loop (l : list (appcmd.Command World Reader Ctx)) c :
  (fix each (l : list (appcmd.Command World Reader Ctx))
       (cobraCommand : appcmd.CobraCommand World Reader)
     : result (appcmd.CobraCommand World Reader) :=
     match l with
     | [] => Ok cobraCommand
     | subCommand :: l' =>
         subCobraCommand ← appcmd.commandToCobra lib ctx container subCommand;
         each l' (cobra.AddCommand cobraCommand subCobraCommand)
     end) l c
  = appcmd.addSubCommands (appcmd.commandToCobra lib ctx container) l c.
Proof.
  revert c. induction l as [| sub l IH]; intros c; [done |]. simpl.
  destruct (appcmd.commandToCobra lib ctx container sub); simpl; [apply IH | done | done].
Qed.

(** [commandToCobra], one step, with the loop by its name. *)
Lemma commandToCobra_eq command :
  appcmd.commandToCobra lib ctx container command
  = match appcmd.commandValidate command with
    | Some err => Err err
    | None =>
        cobraCommand ←
          (if (0 <? length (appcmd.SubCommands command))%nat then
             cobraCommand ←
               appcmd.addSubCommands (appcmd.commandToCobra lib ctx container)
                 (appcmd.SubCommands command)
                 (cobra.set_Run (appcmd.newCobraCommand lib ctx container command)
                    (Some (appcmd.subCommandRun lib container)));
             Ok (appcmd.addHelpTreeFlag container cobraCommand)
           else Ok (appcmd.newCobraCommand lib ctx container command));
        Ok (appcmd.addVersionFlag container command cobraCommand)
    end.
Proof.
  destruct command as [? ? ? ? ? ? ? ? ? ? ? ? subCommands ? ?].
  cbn [appcmd.commandToCobra].
  destruct (appcmd.commandValidate _); [done |].
  cbn [appcmd.SubCommands].
  destruct (0 <? length subCommands)%nat; [| done].
  by rewrite commandToCobra_loop.
Qed.

Lemma allValid_eq command :
  appcmd.allValid command
  = match appcmd.commandValidate command with
    | Some _ => false
    | None => forallb appcmd.allValid (appcmd.SubCommands command)
    end.
Proof.
  destruct command as [? ? ? ? ? ? ? ? ? ? ? ? subCommands ? ?].
  cbn [appcmd.allValid]. destruct (appcmd.commandValidate _); [done |].
  cbn [appcmd.SubCommands]. induction subCommands as [| sub subs IH]; [done |].
  simpl. by rewrite IH.
Qed.

Lemma allValid_nodeOf command :
  appcmd.allValid command = true
  ↔ ∀ node, appcmd.nodeOf node command → appcmd.commandValidate node = None.
Proof.
  split.
  - intros Hall node Hnode. induction Hnode as [| command sub Hin Hnode IH].
    + rewrite allValid_eq in Hall. by destruct (appcmd.commandValidate node).
    + apply IH. rewrite allValid_eq in Hall.
      destruct (appcmd.commandValidate command); [done |].
      rewrite forallb_forall in Hall. by apply Hall, list_elem_of_In.
  - induction command as [command IH] using Command_tree_ind. intros Hnodes.
    rewrite allValid_eq, (Hnodes command (appcmd.nodeOf_self _)).
    apply forallb_forall. intros sub Hin%list_elem_of_In.
    rewrite Forall_forall in IH. apply (IH sub Hin).
    intros node Hnode. apply Hnodes. by eapply appcmd.nodeOf_sub.
Qed.

(** The build returns: a tree when every node is valid, an error when
    one is not. It does not panic. *)
Lemma commandToCobra_allValid command :
  if appcmd.allValid command
  then ∃ n, appcmd.commandToCobra lib ctx container command = Ok n
  else ∃ err, appcmd.commandToCobra lib ctx container command = Err err.
Proof.
  induction command as [command IH] using Command_tree_ind.
  rewrite allValid_eq, commandToCobra_eq.
  destruct (appcmd.commandValidate command) as [err |]; [by eexists |].
  destruct (appcmd.SubCommands command) as [| sub subs]; [by eexists |].
  change (0 <? length (sub :: subs))%nat with true. cbv iota.
  set (l := sub :: subs) in *. clearbody l. clear sub subs.
  generalize (cobra.set_Run (appcmd.newCobraCommand lib ctx container command)
                (Some (appcmd.subCommandRun lib container))).
  induction IH as [| sub subs Hsub _ IHsubs]; intros c; simpl; [by eexists |].
  destruct (appcmd.allValid sub).
  - destruct Hsub as [n ->]. simpl. apply IHsubs.
  - destruct Hsub as [err ->]. simpl. by eexists.
Qed.

Lemma addSubCommands_Err build (l : list (appcmd.Command World Reader Ctx)) c err :
  appcmd.addSubCommands build l c = Err err → ∃ sub, sub ∈ l ∧ build sub = Err err.
Proof.
  revert c. induction l as [| sub l IH]; intros c; simpl; [done |].
  destruct (build sub) as [n | err' | msg] eqn:Hbuild; simpl.
  - intros (sub' & Hin & Herr)%IH. exists sub'. split; [by right | done].
  - intros [= ->]. exists sub. split; [by left | done].
  - done.
Qed.

(** An error returned by the build is the validation error of a node. *)
Lemma commandToCobra_Err command err :
  appcmd.commandToCobra lib ctx container command = Err err →
  ∃ node, appcmd.nodeOf node command ∧ appcmd.commandValidate node = Some err.
Proof.
  induction command as [command IH] using Command_tree_ind.
  rewrite commandToCobra_eq.
  destruct (appcmd.commandValidate command) as [err' |] eqn:Hvalid.
  { intros [= ->]. exists command. split; [constructor | done]. }
  destruct (0 <? length (appcmd.SubCommands command))%nat; [| done].
  destruct (appcmd.addSubCommands _ _ _) as [n | err' | msg] eqn:Hloop; [done | | done].
  intros [= ->]. apply addSubCommands_Err in Hloop as (sub & Hin & Hbuild).
  rewrite Forall_forall in IH. destruct (IH sub Hin Hbuild) as (node & Hnode & Herr).
  exists node. split; [| done]. by eapply appcmd.nodeOf_sub.
Qed.

Lemma commandToCobra_Ok_valid command n :
  appcmd.commandToCobra lib ctx container command = Ok n →
  appcmd.commandValidate command = None.
Proof.
  rewrite commandToCobra_eq. by destruct (appcmd.commandValidate command).
Qed.

Lemma run_build_error command err (w : World) :
  appcmd.commandToCobra lib ctx container command = Err err →
  appcmd.run lib ctx container command w = Ok (w, Some err).
Proof.
  intros Hbuild. unfold appcmd.run, appcmd.runSetup, appcmd.runBuild.
  by rewrite Hbuild.
Qed.

(** C2. A node fails validation exactly when its usage string is empty,
    or Long is set while Short is empty, or both an action and
    sub-commands are present, or neither is. When any node of the tree
    fails it, [commandToCobra] returns the validation error of a node of
    the tree and [run] returns that error with the world untouched:
    nothing has been executed. When every node passes, the tree is
    built. *)
Theorem commandValidate_aborts_build command :
  (∀ node,
     appcmd.commandValidate node = None
     ↔ ¬ (appcmd.Use node = ""
          ∨ (appcmd.Long node ≠ "" ∧ appcmd.Short node = "")
          ∨ (is_Some (appcmd.Run node) ∧ appcmd.SubCommands node ≠ [])
          ∨ (appcmd.Run node = None ∧ appcmd.SubCommands node = [])))
  ∧ (∀ node,
       appcmd.nodeOf node command →
       appcmd.commandValidate node ≠ None →
       ∃ failing err,
         appcmd.nodeOf failing command
         ∧ appcmd.commandValidate failing = Some err
         ∧ appcmd.commandToCobra lib ctx container command = Err err
         ∧ ∀ w : World, appcmd.run lib ctx container command w = Ok (w, Some err))
  ∧ ((∀ node, appcmd.nodeOf node command → appcmd.commandValidate node = None) →
     ∃ n, appcmd.commandToCobra lib ctx container command = Ok n).
Proof.
  split; [apply commandValidate_None |]. split.
  - intros node Hnode Hinvalid.
    pose proof (commandToCobra_allValid command) as Hbuild.
    destruct (appcmd.allValid command) eqn:Hall.
    { destruct Hinvalid. by apply (proj1 (allValid_nodeOf command)). }
    destruct Hbuild as [err Hbuild].
    destruct (commandToCobra_Err command err Hbuild) as (failing & Hfailing & Herr).
    exists failing, err. repeat split; try done.
    intros w. by apply run_build_error.
  - intros Hall%allValid_nodeOf.
    pose proof (commandToCobra_allValid command) as Hbuild. by rewrite Hall in Hbuild.
Qed.

(** *** The closures of a compiled node *)

Lemma Run_set_Run c r : cobra.Run (cobra.set_Run c r) = r.
Proof. by destruct c. Qed.

Lemma Run_set_flags c f : cobra.Run (cobra.set_flags c f) = cobra.Run c.
Proof. by destruct c. Qed.

Lemma Run_set_SilenceErrors c b : cobra.Run (cobra.set_SilenceErrors c b) = cobra.Run c.
Proof. by destruct c. Qed.

Lemma Run_AddCommand c sub : cobra.Run (cobra.AddCommand c sub) = cobra.Run c.
Proof. by destruct c. Qed.

Lemma flags_set_Run c r : cobra.flags (cobra.set_Run c r) = cobra.flags c.
Proof. by destruct c. Qed.

Lemma flags_set_flags c f : cobra.flags (cobra.set_flags c f) = f.
Proof. by destruct c. Qed.

Lemma flags_set_SilenceErrors c b :
  cobra.flags (cobra.set_SilenceErrors c b) = cobra.flags c.
Proof. by destruct c. Qed.

Lemma addSubCommands_Run build (l : list (appcmd.Command World Reader Ctx)) c n :
  appcmd.addSubCommands build l c = Ok n → cobra.Run n = cobra.Run c.
Proof.
  revert c. induction l as [| sub l IH]; intros c; simpl; [by intros [= <-] |].
  destruct (build sub) as [subCobraCommand | |]; simpl; [| done | done].
  intros Hloop%IH. by rewrite Hloop, Run_AddCommand.
Qed.

Lemma Run_newCobraCommand command :
  cobra.Run (appcmd.newCobraCommand lib ctx container command)
  = appcmd.leafRun lib ctx container <$> appcmd.Run command.
Proof.
  unfold appcmd.newCobraCommand.
  destruct (negb _), (appcmd.BindFlags command), (appcmd.BindPersistentFlags command),
    (appcmd.NormalizeFlag command), (appcmd.NormalizePersistentFlag command),
    (appcmd.Run command); reflexivity.
Qed.

(** What the [Run] field of a compiled node does when called: the
    version gate first, then for a node with sub-commands the help-tree
    gate and the usage closure, for a leaf the closure around its action. *)
Lemma compiled_call command n cmd vars args (st : appcmd.RunState World) :
  appcmd.commandToCobra lib ctx container command = Ok n →
  appcmd.call (cobra.Run n) cmd vars args st
  = if negb (String.eqb (appcmd.Version command) "") && appcmd.doVersion vars then
      let '(w, err) :=
        app.Write (app.Stdout container) (appcmd.Version command +:+ appcmd.nl)
          (appcmd.world st) in
      Ok (appcmd.Build_RunState w err)
    else if (0 <? length (appcmd.SubCommands command))%nat then
      if appcmd.helpTree vars then
        text ← appcmd.helpTreeString cmd;
        let '(w, err) := app.Write (app.Stdout container) text (appcmd.world st) in
        Ok (appcmd.Build_RunState w err)
      else appcmd.subCommandRun lib container cmd vars args st
    else
      appcmd.call (appcmd.leafRun lib ctx container <$> appcmd.Run command)
        cmd vars args st.
Proof.
  rewrite commandToCobra_eq.
  destruct (appcmd.commandValidate command); [done |].
  assert (Hversion : ∀ c,
    appcmd.call (cobra.Run (appcmd.addVersionFlag container command c)) cmd vars args st
    = if negb (String.eqb (appcmd.Version command) "") && appcmd.doVersion vars then
        let '(w, err) :=
          app.Write (app.Stdout container) (appcmd.Version command +:+ appcmd.nl)
            (appcmd.world st) in
        Ok (appcmd.Build_RunState w err)
      else appcmd.call (cobra.Run c) cmd vars args st).
  { intros c. unfold appcmd.addVersionFlag.
    destruct (negb (String.eqb (appcmd.Version command) "")); simpl.
    - rewrite Run_set_SilenceErrors, Run_set_Run. simpl.
      unfold appcmd.versionRun. by destruct (appcmd.doVersion vars).
    - by rewrite Run_set_SilenceErrors. }
  destruct (0 <? length (appcmd.SubCommands command))%nat.
  - destruct (appcmd.addSubCommands _ _ _) as [c | |] eqn:Hloop; [| done | done].
    simpl. intros [= <-]. rewrite Hversion.
    destruct (negb _ && _); [done |].
    apply addSubCommands_Run in Hloop. rewrite Run_set_Run in Hloop.
    unfold appcmd.addHelpTreeFlag. rewrite Run_set_Run, Hloop. simpl.
    by destruct (appcmd.helpTree vars).
  - simpl. intros [= <-]. rewrite Hversion. by rewrite Run_newCobraCommand.
Qed.

Lemma commandToCobra_version command n :
  appcmd.commandToCobra lib ctx container command = Ok n →
  ∃ c, n = appcmd.addVersionFlag container command c.
Proof.
  rewrite commandToCobra_eq.
  destruct (appcmd.commandValidate command); [done |].
  destruct (0 <? length (appcmd.SubCommands command))%nat.
  - destruct (appcmd.addSubCommands _ _ _) as [c | |]; [| done | done].
    simpl. intros [= <-]. by eexists.
  - simpl. intros [= <-]. by eexists.
Qed.



(** X18. The other case of the leaf closure: when the action of a leaf
    is run and returns no error, or an error that holds no
    invalid-argument error, the result is stored in [runErr] as it is
    and nothing is written. *)
Lemma leafRun_other command n action cmd vars args
    (st : appcmd.RunState World) (w' : World) (runErr : error) :
  appcmd.commandToCobra lib ctx container command = Ok n →
  appcmd.Run command = Some action →
  appcmd.Version command = "" ∨ appcmd.doVersion vars = false →
  action ctx (app.NewContainerForArgs container args) (appcmd.world st)
  = Ok (w', runErr) →
  (∀ err, runErr = Some err → errors.as_ err errors.InvalidArgumentErrorPtr = None) →
  appcmd.call (cobra.Run n) cmd vars args st = Ok (appcmd.Build_RunState w' runErr).
Proof.
  intros Hbuild Hrun Hversion Haction Has.
  rewrite (compiled_call command n cmd vars args st Hbuild).
  replace (negb (String.eqb (appcmd.Version command) "") && appcmd.doVersion vars)
    with false
    by (destruct Hversion as [-> | ->]; [done | by rewrite andb_false_r]).
  pose proof (commandToCobra_Ok_valid command n Hbuild) as Hvalid.
  apply commandValidate_None in Hvalid.
  destruct (appcmd.SubCommands command) as [| sub subs] eqn:Hsubs.
  - rewrite Hrun. simpl. unfold appcmd.leafRun. rewrite Haction. simpl.
    destruct runErr as [err |]; simpl; [| done]. by rewrite (Has err eq_refl).
  - destruct Hvalid. right. right. left. split; [by rewrite Hrun | done].
Qed.

(** C6. A node compiled from a command with a version has the boolean
    flag "version", and when its [Run] is called with that flag set it
    does one thing: one write of the version string followed by a
    newline to the container's standard output, whose error (nil on
    success) it stores in [runErr]. The result does not depend on the
    action, on the sub-commands or on the help-tree flag: none of them
    runs. *)
Theorem versionRun_spec command n cmd vars args (st : appcmd.RunState World) :
  appcmd.commandToCobra lib ctx container command = Ok n →
  appcmd.Version command ≠ "" →
  appcmd.doVersion vars = true →
  "version" ∈ cobra.boolFlags (cobra.flags n)
  ∧ appcmd.call (cobra.Run n) cmd vars args st
    = let '(w, err) :=
        app.Write (app.Stdout container) (appcmd.Version command +:+ appcmd.nl)
          (appcmd.world st) in
      Ok (appcmd.Build_RunState w err).
Proof.
  intros Hbuild Hversion HdoVersion.
  apply String.eqb_neq in Hversion. split.
  - destruct (commandToCobra_version command n Hbuild) as [c ->].
    unfold appcmd.addVersionFlag. rewrite Hversion. simpl.
    rewrite flags_set_SilenceErrors, flags_set_Run, flags_set_flags. simpl.
    apply elem_of_app. right. by left.
  - rewrite (compiled_call command n cmd vars args st Hbuild).
    by rewrite Hversion, HdoVersion.
Qed.

(** C5, amended. When the tree is built and the container has at least
    one argument, [run] hands to [Execute] the built root with the
    arguments after the first as its arguments, the container's standard
    error as its error sink, the container's standard input, and as its
    output sink the container's standard output when the first of the
    remaining arguments begins with "__complete", and its standard error
    otherwise; the sub-commands and the [Run] of the root are those of the
    built tree. *)
Theorem run_argument_routing command built (arg0 : string) (rest : list string) :
  appcmd.runBuild lib ctx container command = Ok built →
  app.Args container = Ok (arg0 :: rest) →
  ∃ root,
    appcmd.runSetup lib ctx container command = Ok root
    ∧ cobra.args root = Some rest
    ∧ cobra.outWriter root
      = Some match rest with
             | first :: _ =>
                 if appcmd.strings_HasPrefix first "__complete"
                 then app.Stdout container
                 else app.Stderr container
             | [] => app.Stderr container
             end
    ∧ cobra.errWriter root = Some (app.Stderr container)
    ∧ cobra.inReader root = Some (app.Stdin container)
    ∧ cobra.commands root = cobra.commands built
    ∧ cobra.Run root = cobra.Run built
    ∧ ∀ w : World,
        appcmd.run lib ctx container command w
        = r ← appcmd.Execute lib root (appcmd.Build_RunState w None);
          Ok (appcmd.world r.1, match r.2 with
                                | Some e => Some e
                                | None => appcmd.runErr r.1
                                end).
Proof.
  intros Hbuild Hargs.
  assert (Hsetup : ∃ root,
    appcmd.runSetup lib ctx container command = Ok root
    ∧ cobra.args root = Some rest
    ∧ cobra.outWriter root
      = Some match rest with
             | first :: _ =>
                 if appcmd.strings_HasPrefix first "__complete"
                 then app.Stdout container
                 else app.Stderr container
             | [] => app.Stderr container
             end
    ∧ cobra.errWriter root = Some (app.Stderr container)
    ∧ cobra.inReader root = Some (app.Stdin container)
    ∧ cobra.commands root = cobra.commands built
    ∧ cobra.Run root = cobra.Run built).
  { unfold appcmd.runSetup. rewrite Hbuild. simpl.
    unfold appcmd.runConfigure. rewrite Hargs. simpl.
    eexists. split; [reflexivity |].
    destruct built. destruct rest as [| first rest']; simpl; [done |].
    by destruct (appcmd.strings_HasPrefix first "__complete"). }
  destruct Hsetup as (root & Hsetup & Hfields).
  exists root. split; [done |]. repeat (split; [apply Hfields |]).
  intros w. unfold appcmd.run. rewrite Hsetup.
  destruct (appcmd.Execute lib root _) as [[st' [e |]] | |]; done.
Qed.

(** On an empty argument list, [run] panics once the tree is built. *)
Lemma run_no_arguments command built (w : World) :
  appcmd.runBuild lib ctx container command = Ok built →
  app.Args container = Ok [] →
  appcmd.run lib ctx container command w = Panic "slice bounds out of range [1:0]".
Proof.
  intros Hbuild Hargs. unfold appcmd.run, appcmd.runSetup. rewrite Hbuild. simpl.
  unfold appcmd.runConfigure. by rewrite Hargs.
Qed.

End CommandFacts.

(** ** The statements at concrete input *)

Lemma commandValidate_aborts_build_witness :
  ∃ failing err,
    appcmd.nodeOf failing example.brokenCommand
    ∧ appcmd.commandValidate failing = Some err
    ∧ appcmd.commandToCobra example.lib tt (example.container ["prog"])
        example.brokenCommand = Err err
    ∧ ∀ w : example.World,
        appcmd.run example.lib tt (example.container ["prog"]) example.brokenCommand w
        = Ok (w, Some err).
Proof.
  apply (proj1 (proj2 (commandValidate_aborts_build example.lib tt
                         (example.container ["prog"]) example.brokenCommand))
           (appcmd.commandLiteral "empty" "" None false None [])).
  - eapply appcmd.nodeOf_sub; [| apply appcmd.nodeOf_self].
    simpl. right. left.
  - vm_compute. discriminate.
Defined.




(** The same through a parent: the usage text written is the leaf's. *)
Example leaf_usage_through_parent :
  appcmd.run example.lib tt (example.container ["prog"; "reject"; "x"])
    example.parentCommand []
  = Ok ([(example.stderr, "Usage: reject" +:+ appcmd.nl)],
        Some (invalidArgumentError (Some (errorString "bad argument")))).
Proof. by vm_compute. Qed.

Lemma versionRun_spec_witness :
  "version" ∈ cobra.boolFlags (cobra.flags (example.compiled [] example.versionedCommand))
  ∧ appcmd.invoke (example.compiled [] example.versionedCommand)
      {| appcmd.doVersion := true; appcmd.helpTree := false |} ["x"]
      (appcmd.Build_RunState [] None)
    = Ok (appcmd.Build_RunState [(example.stdout, "1.2.3" +:+ appcmd.nl)] None).
Proof.
  apply (versionRun_spec example.lib tt (example.container [])
           example.versionedCommand (example.compiled [] example.versionedCommand)
           (cobra.erase (example.compiled [] example.versionedCommand))
           {| appcmd.doVersion := true; appcmd.helpTree := false |} ["x"]
           (appcmd.Build_RunState [] None)).
  - reflexivity.
  - simpl. discriminate.
  - reflexivity.
Defined.

(** C5, the claim as stated fails twice. With the process arguments
    "prog", "sub", "__complete" the second remaining argument begins with
    "__complete" and the output sink handed to [Execute] is still
    standard error; and on an empty argument list there is no first
    argument to drop: [run] panics. *)
Lemma run_routing_first_argument_only :
  appcmd.runSetup example.lib tt (example.container ["prog"; "sub"; "__complete"])
    example.rejectCommand
  = Ok (example.configured example.rejectCommand ["prog"; "sub"; "__complete"])
  ∧ cobra.args (example.configured example.rejectCommand ["prog"; "sub"; "__complete"])
    = Some ["sub"; "__complete"]
  ∧ example.sinkOf
      (example.configured example.rejectCommand ["prog"; "sub"; "__complete"])
    = Some ([(example.stderr, "x")], None)
  ∧ example.sinkOf
      (example.configured example.rejectCommand ["prog"; "sub"; "__complete"])
    ≠ (λ w, app.Write w "x" []) <$> Some (example.writer example.stdout)
  ∧ appcmd.run example.lib tt (example.container []) example.rejectCommand []
    = Panic "slice bounds out of range [1:0]".
Proof.
  split; [reflexivity |]. repeat split; by vm_compute.
Qed.

Lemma run_argument_routing_witness :
  ∃ root,
    appcmd.runSetup example.lib tt (example.container ["prog"; "__complete"; "sub"])
      example.rejectCommand = Ok root
    ∧ cobra.args root = Some ["__complete"; "sub"]
    ∧ example.sinkOf root = Some ([(example.stdout, "x")], None).
Proof.
  destruct (run_argument_routing example.lib tt
              (example.container ["prog"; "__complete"; "sub"])
              example.rejectCommand
              (match appcmd.runBuild example.lib tt
                       (example.container ["prog"; "__complete"; "sub"])
                       example.rejectCommand with
               | Ok n => n
               | _ => example.zeroCobraCommand
               end)
              "prog" ["__complete"; "sub"] eq_refl eq_refl)
    as (root & Hsetup & Hargs & Hout & _).
  exists root. split; [exact Hsetup |]. split; [exact Hargs |].
  unfold example.sinkOf. rewrite Hout. reflexivity.
Defined.

(** * Further properties of the code *)

(** ** Package [app] *)

Section MoreContainerFacts.

Import (coercions) app.

Lemma EnvironMap_fold_Some (l : list (string * string)) (k v : string) :
  foldl (λ (m : gmap string string) kv,
           if decide (kv.2 ≠ "") then <[kv.1 := kv.2]> m else m) ∅ l !! k = Some v →
  v ≠ "" ∧ (k, v) ∈ l.
Proof.
  induction l as [| [k' v'] l IH] using rev_ind;
    [simpl; by rewrite lookup_empty |].
  rewrite foldl_snoc, elem_of_app, list_elem_of_singleton. simpl.
  destruct (decide (v' ≠ "")) as [Hv' | Hv'].
  - rewrite lookup_insert_Some. intros [[<- <-] | [_ Hold]]; [by auto |].
    destruct (IH Hold); auto.
  - intros Hold. destruct (IH Hold); auto.
Qed.

(** X1. Whatever the container enumerates (empty values and repeated
    keys included), no key of [EnvironMap] has an empty value, and every
    binding of the map is one of the enumerated entries. *)
Theorem EnvironMap_values (c : app.EnvContainer) (k v : string) :
  app.EnvironMap c !! k = Some v → v ≠ "" ∧ (k, v) ∈ app.ForEachEnv c.
Proof. apply EnvironMap_fold_Some. Qed.

Lemma EnvironMap_values_witness :
  "1" ≠ "" ∧ ("A", "1") ∈ [("B", ""); ("A", "0"); ("A", "1")].
Proof.
  apply (EnvironMap_values
           {| app.Env := λ _, ""; app.ForEachEnv := [("B", ""); ("A", "0"); ("A", "1")] |}
           "A" "1").
  vm_compute. reflexivity.
Defined.

Lemma EnvironMap_NewEnvContainer_filter (m : gmap string string) :
  app.EnvironMap (app.NewEnvContainer m) = filter (λ kv, kv.2 ≠ "") m.
Proof.
  apply map_eq. intros k. apply option_eq. intros v.
  destruct (ForEachEnv_NewEnvContainer m) as [Hnd Hin].
  rewrite EnvironMap_lookup by done. rewrite Hin, map_lookup_filter_Some. simpl.
  tauto.
Qed.

(** X2. A container with overrides holds the override of a key when
    there is one and the base value otherwise, an empty override
    clearing the key: [Env] returns the override (the empty string for
    an empty one) or else what [EnvironMap] of the base holds, and
    [EnvironMap] is the overrides laid over the base map, without the
    empty values. *)
Theorem NewEnvContainerWithOverrides_lookup
    (c : app.EnvContainer) (overrides : gmap string string) :
  app.EnvironMap (app.NewEnvContainerWithOverrides c overrides)
  = filter (λ kv, kv.2 ≠ "") (overrides ∪ app.EnvironMap c)
  ∧ ∀ key : string,
      app.Env (app.NewEnvContainerWithOverrides c overrides) key
      = match overrides !! key with
        | Some v => v
        | None => default "" (app.EnvironMap c !! key)
        end.
Proof.
  split.
  - apply (EnvironMap_NewEnvContainer_filter (overrides ∪ app.EnvironMap c)).
  - intros key.
    change (app.Env (app.NewEnvContainer (overrides ∪ app.EnvironMap c)) key
            = match overrides !! key with
              | Some v => v
              | None => default "" (app.EnvironMap c !! key)
              end).
    rewrite Env_NewEnvContainer, lookup_union.
    by destruct (overrides !! key) as [v |], (app.EnvironMap c !! key).
Qed.

(** X3. Overriding twice is overriding once with the later overrides
    laid over the earlier ones: the two containers are the same. *)
Theorem NewEnvContainerWithOverrides_compose
    (c : app.EnvContainer) (o1 o2 : gmap string string) :
  app.NewEnvContainerWithOverrides (app.NewEnvContainerWithOverrides c o1) o2
  = app.NewEnvContainerWithOverrides c (o2 ∪ o1).
Proof.
  unfold app.NewEnvContainerWithOverrides at 1 3.
  unfold app.newEnvContainer. do 2 f_equal.
  change (app.EnvironMap (app.NewEnvContainerWithOverrides c o1))
    with (app.EnvironMap (app.NewEnvContainer (o1 ∪ app.EnvironMap c))).
  rewrite EnvironMap_NewEnvContainer_filter.
  apply map_eq. intros k. apply option_eq. intros v.
  rewrite !map_lookup_filter_Some, !lookup_union_Some_raw, map_lookup_filter_Some,
    lookup_union_Some_raw, lookup_union_None. simpl.
  destruct (o2 !! k), (o1 !! k); intuition congruence.
Qed.

Lemma result_mapM_Ok {A B} (f : A → result B) (l : list A) (k : list B) :
  mapM f l = Ok k ↔ Forall2 (λ x y, f x = Ok y) l k.
Proof.
  revert k. induction l as [| x l IH]; intros k.
  - simpl. split; [intros [= <-]; constructor | by intros ->%Forall2_nil_inv_l].
  - rewrite result_mapM_cons. split.
    + destruct (f x) as [y | |] eqn:Hx; simpl; [| done | done].
      destruct (mapM f l) as [k' | |] eqn:Hl; simpl; [| done | done].
      intros [= <-]. constructor; [done |]. by apply IH.
    + intros (y & k' & Hx & Hl & ->)%Forall2_cons_inv_l.
      rewrite Hx. simpl. apply IH in Hl. by rewrite Hl.
Qed.

(** X4. [Args] returns a list exactly when [NumArgs] is its length and
    [Arg] returns its element at every index below that; it panics when
    [NumArgs] is negative or an [Arg] in range panics. *)
Theorem Args_Ok (argList : app.ArgContainer) (l : list string) :
  app.Args argList = Ok l
  ↔ app.NumArgs argList = Z.of_nat (length l)
    ∧ ∀ (i : nat) (s : string), l !! i = Some s → app.Arg argList (Z.of_nat i) = Ok s.
Proof.
  unfold app.Args. case_bool_decide as Hneg.
  { split; [done | intros [Hlen _]; lia]. }
  rewrite result_mapM_Ok, Forall2_same_length_lookup, length_seq. split.
  - intros [Hlen Hall]. split; [lia |]. intros i s Hi.
    apply (Hall i i s); [| done]. apply lookup_seq. split; [done |].
    apply lookup_lt_Some in Hi. lia.
  - intros [Hlen Hall]. split; [lia |]. intros i j s [-> _]%lookup_seq Hi.
    by apply Hall.
Qed.

(** X5. For a container built from a map, [EnvBool] returns the default
    for a key that is unset or set to the empty string, without parsing
    anything, and otherwise whatever parsing the value returns. *)
Theorem EnvBool_NewEnvContainer (m : gmap string string) (key : string)
    (defaultValue : bool) (strconv_ParseBool : string → result bool) :
  app.EnvBool (app.NewEnvContainer m) key defaultValue strconv_ParseBool
  = match m !! key with
    | Some v => if String.eqb v "" then Ok defaultValue else strconv_ParseBool v
    | None => Ok defaultValue
    end.
Proof.
  unfold app.EnvBool. rewrite Env_NewEnvContainer.
  by destruct (m !! key).
Qed.

(** X6. The empty path is no device path, whatever the four constants
    are; a path is a device path exactly when it is not empty and is one
    of the four constants; and when the constants are pairwise distinct,
    at most one of the four predicates holds of a path. *)
Theorem IsDevPath_spec (dev : app.DevPaths) (path : string) :
  app.IsDevPath dev "" = false
  ∧ (app.IsDevPath dev path = true
     ↔ path ≠ ""
       ∧ path ∈ [app.DevStdinFilePath dev; app.DevStdoutFilePath dev;
                 app.DevStderrFilePath dev; app.DevNullFilePath dev])
  ∧ (NoDup [app.DevStdinFilePath dev; app.DevStdoutFilePath dev;
            app.DevStderrFilePath dev; app.DevNullFilePath dev] →
     (length (filter (λ b, b = true)
                [app.IsDevStdin dev path; app.IsDevStdout dev path;
                 app.IsDevStderr dev path; app.IsDevNull dev path]) ≤ 1)%nat).
Proof.
  unfold app.IsDevPath, app.IsDevStdin, app.IsDevStdout, app.IsDevStderr, app.IsDevNull.
  split; [done |]. split.
  - rewrite !orb_true_iff, !andb_true_iff, !negb_true_iff, !String.eqb_eq,
      String.eqb_neq, !elem_of_cons, elem_of_nil. tauto.
  - rewrite !NoDup_cons, !not_elem_of_cons.
    intros ((H12 & H13 & H14 & _) & (H23 & H24 & _) & (H34 & _) & _).
    destruct (String.eqb_spec path ""); simpl; [lia |].
    destruct (String.eqb_spec path (app.DevStdinFilePath dev)),
      (String.eqb_spec path (app.DevStdoutFilePath dev)),
      (String.eqb_spec path (app.DevStderrFilePath dev)),
      (String.eqb_spec path (app.DevNullFilePath dev));
      simpl; try lia; congruence.
Qed.

Lemma IsDevPath_spec_witness :
  (length (filter (λ b, b = true)
             [app.IsDevStdin
                {| app.DevStdinFilePath := "/dev/stdin";
                   app.DevStdoutFilePath := "/dev/stdout";
                   app.DevStderrFilePath := "/dev/stderr";
                   app.DevNullFilePath := "/dev/null" |} "/dev/null";
              app.IsDevStdout
                {| app.DevStdinFilePath := "/dev/stdin";
                   app.DevStdoutFilePath := "/dev/stdout";
                   app.DevStderrFilePath := "/dev/stderr";
                   app.DevNullFilePath := "/dev/null" |} "/dev/null";
              app.IsDevStderr
                {| app.DevStdinFilePath := "/dev/stdin";
                   app.DevStdoutFilePath := "/dev/stdout";
                   app.DevStderrFilePath := "/dev/stderr";
                   app.DevNullFilePath := "/dev/null" |} "/dev/null";
              app.IsDevNull
                {| app.DevStdinFilePath := "/dev/stdin";
                   app.DevStdoutFilePath := "/dev/stdout";
                   app.DevStderrFilePath := "/dev/stderr";
                   app.DevNullFilePath := "/dev/null" |} "/dev/null"]) ≤ 1)%nat.
Proof.
  apply (proj2 (proj2 (IsDevPath_spec
                         {| app.DevStdinFilePath := "/dev/stdin";
                            app.DevStdoutFilePath := "/dev/stdout";
                            app.DevStderrFilePath := "/dev/stderr";
                            app.DevNullFilePath := "/dev/null" |} "/dev/null"))).
  simpl. apply (bool_decide_unpack _). vm_compute. exact I.
Defined.

End MoreContainerFacts.

(** ** Package [appext] and the template helpers *)

Section MorePrefixFacts.

Lemma prefixByte_envNameByte c :
  appext.appNameByte c = true → appext.envNameByte (appext.prefixByte c) = true.
Proof. destruct c as [[] [] [] [] [] [] [] []]; vm_compute; by intros. Qed.

Lemma mapBytes_length f s : String.length (appext.mapBytes f s) = String.length s.
Proof. induction s as [| c s IH]; simpl; [done | by rewrite IH]. Qed.

Lemma string_length_append s t :
  String.length (s +:+ t) = (String.length s + String.length t)%nat.
Proof. induction s as [| c s IH]; simpl; [done | by rewrite IH]. Qed.

Lemma allBytes_append p s t :
  appext.allBytes p (s +:+ t) = appext.allBytes p s && appext.allBytes p t.
Proof. induction s as [| c s IH]; simpl; [done |]. by rewrite IH, andb_assoc. Qed.

(** X7. The prefix of a valid application name is made of upper-case
    letters, digits and '_' only, and is one byte longer than the name:
    with any suffix of that alphabet it is an environment-variable name. *)
Theorem getAppNameEnvPrefix_charset (appName : string) :
  appext.validateAppName appName = None →
  appext.allBytes appext.envNameByte (appext.getAppNameEnvPrefix appName) = true
  ∧ String.length (appext.getAppNameEnvPrefix appName) = S (String.length appName).
Proof.
  unfold appext.validateAppName. intros Hvalid.
  destruct (String.eqb appName ""); [done |].
  destruct (appext.allBytes appext.appNameByte appName) eqn:Hall; [| done].
  unfold appext.getAppNameEnvPrefix. rewrite getAppNameEnvPrefix_bytes by done.
  rewrite allBytes_append, string_length_append, mapBytes_length. simpl.
  split; [| lia]. rewrite andb_true_r. clear Hvalid.
  induction appName as [| c s IH]; [done |]. simpl in *.
  apply andb_true_iff in Hall as [Hc Hs]. by rewrite prefixByte_envNameByte, IH.
Qed.

Lemma getAppNameEnvPrefix_charset_witness :
  appext.allBytes appext.envNameByte (appext.getAppNameEnvPrefix "my-app_2") = true
  ∧ String.length (appext.getAppNameEnvPrefix "my-app_2") = 9%nat.
Proof. apply (getAppNameEnvPrefix_charset "my-app_2"). reflexivity. Defined.

Lemma prefixByte_upper c :
  appext.appNameByte c = true →
  appext.appNameByte (appext.upper_byte c) = true
  ∧ appext.prefixByte (appext.upper_byte c) = appext.prefixByte c.
Proof. destruct c as [[] [] [] [] [] [] [] []]; vm_compute; by intros. Qed.

Lemma prefixByte_dash c :
  appext.appNameByte c = true →
  appext.appNameByte (if Ascii.eqb c "-" then "_"%char else c) = true
  ∧ appext.prefixByte (if Ascii.eqb c "-" then "_"%char else c) = appext.prefixByte c.
Proof. destruct c as [[] [] [] [] [] [] [] []]; vm_compute; by intros. Qed.

Lemma validateAppName_allBytes s :
  appext.validateAppName s = None
  ↔ s ≠ "" ∧ appext.allBytes appext.appNameByte s = true.
Proof.
  unfold appext.validateAppName. destruct (String.eqb_spec s "") as [-> | Hne].
  - split; [done | by intros [? _]].
  - destruct (appext.allBytes appext.appNameByte s); split; try done. by intros [_ ?].
Qed.

(** X8. The prefix does not tell apart names that differ in the case of
    their letters or in '-' against '_': upper-casing a valid name, or
    replacing its '-' by '_', gives a valid name with the same prefix. *)
Theorem getAppNameEnvPrefix_insensitive (appName : string) :
  appext.validateAppName appName = None →
  appext.validateAppName (appext.strings_ToUpper appName) = None
  ∧ appext.getAppNameEnvPrefix (appext.strings_ToUpper appName)
    = appext.getAppNameEnvPrefix appName
  ∧ appext.validateAppName (appext.strings_ReplaceAll appName "-" "_") = None
  ∧ appext.getAppNameEnvPrefix (appext.strings_ReplaceAll appName "-" "_")
    = appext.getAppNameEnvPrefix appName.
Proof.
  rewrite !validateAppName_allBytes. intros [Hne Hall].
  assert (Hupper : appext.allBytes appext.appNameByte (appext.strings_ToUpper appName) = true
                   ∧ appext.mapBytes appext.prefixByte (appext.strings_ToUpper appName)
                     = appext.mapBytes appext.prefixByte appName).
  { clear Hne. induction appName as [| c s IH]; [done |]. simpl in *.
    apply andb_true_iff in Hall as [Hc Hs]. destruct (IH Hs) as [IH1 IH2].
    destruct (prefixByte_upper c Hc) as [H1 H2]. by rewrite H1, H2, IH1, IH2. }
  assert (Hdash : appext.allBytes appext.appNameByte
                    (appext.strings_ReplaceAll appName "-" "_") = true
                  ∧ appext.mapBytes appext.prefixByte
                      (appext.strings_ReplaceAll appName "-" "_")
                    = appext.mapBytes appext.prefixByte appName).
  { rewrite replaceAll_dash. clear Hne Hupper.
    induction appName as [| c s IH]; [done |].
    cbn [appext.allBytes appext.mapBytes] in *.
    apply andb_true_iff in Hall as [Hc Hs]. destruct (IH Hs) as [IH1 IH2].
    destruct (prefixByte_dash c Hc) as [H1 H2]. by rewrite H1, H2, IH1, IH2. }
  destruct Hupper as [Hu1 Hu2], Hdash as [Hd1 Hd2].
  unfold appext.getAppNameEnvPrefix.
  rewrite !getAppNameEnvPrefix_bytes by done. rewrite Hu2, Hd2.
  repeat split; try done.
  - by destruct appName.
  - rewrite replaceAll_dash. by destruct appName.
Qed.

Lemma getAppNameEnvPrefix_insensitive_witness :
  appext.getAppNameEnvPrefix "MY-APP" = appext.getAppNameEnvPrefix "my-app"
  ∧ appext.getAppNameEnvPrefix "my_app" = appext.getAppNameEnvPrefix "my-app".
Proof.
  pose proof (getAppNameEnvPrefix_insensitive "my-app" eq_refl) as (_ & H1 & _ & H2).
  split; [exact H1 | exact H2].
Defined.

Lemma isSpace_ascii_append_nil s t : s +:+ t = "" → s = "".
Proof. by destruct s. Qed.

(** X9. [trimRightSpace] on an ASCII string removes exactly the white
    space at its end: the string is the result followed by white space
    only, the result does not end in white space, and trimming it again
    changes nothing. *)
Theorem trimRightSpace_spec (s : string) :
  appcmd.isASCII s = true →
  (∃ t, s = appcmd.trimRightSpace s +:+ t ∧ appext.allBytes appcmd.isSpace t = true)
  ∧ appcmd.endsWithSpace (appcmd.trimRightSpace s) = false
  ∧ appcmd.trimRightSpace (appcmd.trimRightSpace s) = appcmd.trimRightSpace s.
Proof.
  intros _. induction s as [| c s [[t [Ht Hsp]] [Hlast Hidem]]]; [by split; [exists "" |] |].
  cbn [appcmd.trimRightSpace].
  destruct (appcmd.isSpace c) eqn:Hc; simpl.
  - destruct (String.eqb_spec (appcmd.trimRightSpace s) "") as [Hempty | Hne].
    + split; [| done]. exists (String c s). split; [done |].
      rewrite Hempty in Ht. change (s = t) in Ht. rewrite <- Ht in Hsp.
      simpl. by rewrite Hc, Hsp.
    + split; [| split].
      * exists t. split; [| done].
        change (String c s = String c (appcmd.trimRightSpace s +:+ t)). by f_equal.
      * simpl. destruct (appcmd.trimRightSpace s); [done | done].
      * simpl. rewrite Hidem, Hc. simpl.
        by destruct (String.eqb_spec (appcmd.trimRightSpace s) "").
  - split; [| split].
    + exists t. split; [| done].
      change (String c s = String c (appcmd.trimRightSpace s +:+ t)). by f_equal.
    + simpl. destruct (appcmd.trimRightSpace s); [by rewrite Hc | done].
    + simpl. by rewrite Hidem, Hc.
Qed.

Lemma trimRightSpace_spec_witness :
  appcmd.trimRightSpace (appcmd.trimRightSpace "usage  ") = appcmd.trimRightSpace "usage  ".
Proof. apply (trimRightSpace_spec "usage  "). reflexivity. Defined.

(** X10. [BindMultiple] composes: binding the functions of two lists
    joined is binding those of the first and then those of the second,
    and binding none leaves the flag set as it is. *)
Theorem BindMultiple_app (fs gs : list (cobra.FlagSet → cobra.FlagSet))
    (flagSet : cobra.FlagSet) :
  appcmd.BindMultiple (fs ++ gs) flagSet
  = appcmd.BindMultiple gs (appcmd.BindMultiple fs flagSet)
  ∧ appcmd.BindMultiple [] flagSet = flagSet.
Proof. unfold appcmd.BindMultiple. by rewrite foldl_app. Qed.

End MorePrefixFacts.

(** ** The help tree *)

Section HelpTreeFacts.

Context {World Reader : Type}.

Implicit Types cmd child : appcmd.Info World Reader.












End HelpTreeFacts.

(** ** The compiled tree *)

Section MoreCommandFacts.

Import (coercions) app.

Context {World Reader Ctx : Type}.
Variable lib : appcmd.CobraLib World Reader.
Variable ctx : Ctx.
Variable container : app.Container World Reader.

Implicit Types command node : appcmd.Command World Reader Ctx.
Implicit Types c n : appcmd.CobraCommand World Reader.

Lemma staticFields_set_Run c r : cobra.staticFields (cobra.set_Run c r) = cobra.staticFields c.
Proof. by destruct c. Qed.

Lemma staticFields_set_flags c f :
  cobra.staticFields (cobra.set_flags c f) = cobra.staticFields c.
Proof. by destruct c. Qed.

Lemma staticFields_set_SilenceErrors c b :
  cobra.staticFields (cobra.set_SilenceErrors c b) = cobra.staticFields c.
Proof. by destruct c. Qed.

Lemma staticFields_AddCommand c sub :
  cobra.staticFields (cobra.AddCommand c sub) = cobra.staticFields c.
Proof. by destruct c. Qed.

Lemma commands_set_Run c r : cobra.commands (cobra.set_Run c r) = cobra.commands c.
Proof. by destruct c. Qed.

Lemma commands_set_flags c f : cobra.commands (cobra.set_flags c f) = cobra.commands c.
Proof. by destruct c. Qed.

Lemma commands_set_SilenceErrors c b :
  cobra.commands (cobra.set_SilenceErrors c b) = cobra.commands c.
Proof. by destruct c. Qed.

Lemma commands_AddCommand c sub :
  cobra.commands (cobra.AddCommand c sub) = cobra.commands c ++ [sub].
Proof. by destruct c. Qed.

Lemma SilenceErrors_set_SilenceErrors c b :
  cobra.SilenceErrors (cobra.set_SilenceErrors c b) = b.
Proof. by destruct c. Qed.

Lemma staticFields_addVersionFlag command c :
  cobra.staticFields (appcmd.addVersionFlag container command c) = cobra.staticFields c
  ∧ cobra.commands (appcmd.addVersionFlag container command c) = cobra.commands c
  ∧ cobra.SilenceErrors (appcmd.addVersionFlag container command c) = true
  ∧ (is_Some (cobra.Run c) → is_Some (cobra.Run (appcmd.addVersionFlag container command c))).
Proof.
  unfold appcmd.addVersionFlag. destruct (negb _).
  - rewrite staticFields_set_SilenceErrors, staticFields_set_Run, staticFields_set_flags,
      commands_set_SilenceErrors, commands_set_Run, commands_set_flags,
      SilenceErrors_set_SilenceErrors, Run_set_SilenceErrors, Run_set_Run.
    by eauto.
  - by rewrite staticFields_set_SilenceErrors, commands_set_SilenceErrors,
      SilenceErrors_set_SilenceErrors, Run_set_SilenceErrors.
Qed.

Lemma staticFields_addHelpTreeFlag c :
  cobra.staticFields (appcmd.addHelpTreeFlag container c) = cobra.staticFields c
  ∧ cobra.commands (appcmd.addHelpTreeFlag container c) = cobra.commands c
  ∧ is_Some (cobra.Run (appcmd.addHelpTreeFlag container c)).
Proof.
  unfold appcmd.addHelpTreeFlag.
  rewrite staticFields_set_Run, staticFields_set_flags, commands_set_Run,
    commands_set_flags, Run_set_Run. by eauto.
Qed.

Lemma newCobraCommand_fields command :
  cobra.staticFields (appcmd.newCobraCommand lib ctx container command)
  = (appcmd.Use command, appcmd.Aliases command, appcmd.Deprecated command,
     appcmd.Hidden command, appcmd.strings_TrimSpace (appcmd.Short command),
     (if String.eqb (appcmd.Long command) "" then ""
      else appcmd.strings_TrimSpace (appcmd.Long command)),
     appcmd.helpTemplateText, Some (appcmd.helpFunc lib container))
  ∧ cobra.commands (appcmd.newCobraCommand lib ctx container command) = [].
Proof.
  unfold appcmd.newCobraCommand.
  destruct (String.eqb (appcmd.Long command) ""), (appcmd.BindFlags command),
    (appcmd.BindPersistentFlags command), (appcmd.NormalizeFlag command),
    (appcmd.NormalizePersistentFlag command), (appcmd.Run command); by split.
Qed.

Lemma addSubCommands_shape build (l : list (appcmd.Command World Reader Ctx)) c n :
  appcmd.addSubCommands build l c = Ok n →
  ∃ subs,
    Forall2 (λ sub s, build sub = Ok s) l subs
    ∧ cobra.commands n = cobra.commands c ++ subs
    ∧ cobra.staticFields n = cobra.staticFields c.
Proof.
  revert c. induction l as [| sub l IH]; intros c; simpl.
  - intros [= <-]. exists []. by rewrite app_nil_r.
  - destruct (build sub) as [s | |] eqn:Hbuild; simpl; [| done | done].
    intros (subs & Hall & Hcommands & Hstatic)%IH.
    exists (s :: subs). split; [by constructor |].
    rewrite Hcommands, Hstatic, commands_AddCommand, staticFields_AddCommand.
    by rewrite <- app_assoc.
Qed.

(** The node built for a command: its children are the nodes built
    for the sub-commands, in order, and its own fields come from the
    command. *)
Lemma commandToCobra_fields command n :
  appcmd.commandToCobra lib ctx container command = Ok n →
  (∃ subs,
     Forall2 (λ sub s, appcmd.commandToCobra lib ctx container sub = Ok s)
       (appcmd.SubCommands command) subs
     ∧ cobra.commands n = subs)
  ∧ cobra.staticFields n
    = (appcmd.Use command, appcmd.Aliases command, appcmd.Deprecated command,
       appcmd.Hidden command, appcmd.strings_TrimSpace (appcmd.Short command),
       (if String.eqb (appcmd.Long command) "" then ""
        else appcmd.strings_TrimSpace (appcmd.Long command)),
       appcmd.helpTemplateText, Some (appcmd.helpFunc lib container))
  ∧ cobra.SilenceErrors n = true
  ∧ is_Some (cobra.Run n).
Proof.
  intros Hbuild. pose proof (commandToCobra_Ok_valid lib ctx container command n Hbuild)
    as Hvalid.
  apply commandValidate_None in Hvalid.
  rewrite commandToCobra_eq in Hbuild.
  destruct (appcmd.commandValidate command); [done |].
  destruct (newCobraCommand_fields command) as [Hstatic Hcommands].
  destruct (appcmd.SubCommands command) as [| sub subs] eqn:Hsubs.
  - simpl in Hbuild. injection Hbuild as <-.
    destruct (staticFields_addVersionFlag command
                (appcmd.newCobraCommand lib ctx container command))
      as (H1 & H2 & H3 & H4).
    rewrite H1, H2, H3, Hstatic, Hcommands. split; [exists []; by split |].
    split; [done |]. split; [done |]. apply H4.
    rewrite Run_newCobraCommand.
    destruct (appcmd.Run command); [by eexists |].
    destruct Hvalid. right. right. right. by split.
  - change (0 <? length (sub :: subs))%nat with true in Hbuild. cbv iota in Hbuild.
    destruct (appcmd.addSubCommands _ _ _) as [c1 | |] eqn:Hloop; [| done | done].
    simpl in Hbuild. injection Hbuild as <-.
    apply addSubCommands_shape in Hloop as (built & Hall & Hc1 & Hs1).
    rewrite commands_set_Run, Hcommands in Hc1. simpl in Hc1.
    rewrite staticFields_set_Run, Hstatic in Hs1.
    destruct (staticFields_addHelpTreeFlag c1) as (G1 & G2 & G3).
    destruct (staticFields_addVersionFlag command (appcmd.addHelpTreeFlag container c1))
      as (H1 & H2 & H3 & H4).
    rewrite H1, H2, H3, G1, G2, Hs1, Hc1.
    split; [by exists built |]. split; [done |]. split; [done |]. by apply H4.
Qed.

Lemma commandMeta_eq command :
  appcmd.commandMeta command
  = appcmd.metaNode (appcmd.Use command) (appcmd.Aliases command)
      (appcmd.Deprecated command) (appcmd.Hidden command)
      (appcmd.commandMeta <$> appcmd.SubCommands command).
Proof.
  destruct command as [? ? ? ? ? ? ? ? ? ? ? ? subCommands ? ?].
  cbn [appcmd.commandMeta appcmd.Use appcmd.Aliases appcmd.Deprecated appcmd.Hidden
       appcmd.SubCommands].
  reflexivity.
Qed.

Lemma cobraMeta_eq {R HF : Type} (c : cobra.Command World Reader R HF) :
  appcmd.cobraMeta c
  = appcmd.metaNode (cobra.Use c) (cobra.Aliases c) (cobra.Deprecated c) (cobra.Hidden c)
      (appcmd.cobraMeta <$> cobra.commands c).
Proof.
  destruct c as [? ? ? ? ? ? ? ? ? ? ? ? children ? ? ? ? ? ?].
  cbn [appcmd.cobraMeta cobra.Use cobra.Aliases cobra.Deprecated cobra.Hidden
       cobra.commands].
  reflexivity.
Qed.

(** The compiled tree has the shape of the command tree. *)
Lemma commandToCobra_meta command :
  ∀ n, appcmd.commandToCobra lib ctx container command = Ok n →
       appcmd.cobraMeta n = appcmd.commandMeta command.
Proof.
  induction command as [command IH] using Command_tree_ind. intros n Hbuild.
  destruct (commandToCobra_fields command n Hbuild)
    as ((subs & Hall & Hcommands) & Hstatic & _).
  rewrite cobraMeta_eq, commandMeta_eq, Hcommands.
  unfold cobra.staticFields in Hstatic.
  injection Hstatic as -> -> -> -> _ _ _ _. f_equal.
  clear Hcommands Hbuild. induction Hall as [| sub s l subs Hsub Hall IHall]; [done |].
  apply Forall_cons in IH as [IHsub IHrest]. rewrite !fmap_cons.
  f_equal; [by apply IHsub | by apply IHall].
Qed.

(** X12. The compiled tree mirrors the command tree: node for node, in
    order, with the same usage line, aliases, deprecation text and
    hidden flag. Every node of it has a [Run], the help template and
    help function of this package, and the library's own printing of
    errors switched off. *)
Theorem commandToCobra_mirrors command n :
  appcmd.commandToCobra lib ctx container command = Ok n →
  appcmd.cobraMeta n = appcmd.commandMeta command
  ∧ ∀ node' : appcmd.CobraCommand World Reader,
      cobra.nodeOf node' n →
      is_Some (cobra.Run node')
      ∧ cobra.SilenceErrors node' = true
      ∧ cobra.helpTemplate node' = appcmd.helpTemplateText
      ∧ cobra.helpFunc node' = Some (appcmd.helpFunc lib container).
Proof.
  intros Hbuild. split; [by apply commandToCobra_meta |].
  revert n Hbuild. induction command as [command IH] using Command_tree_ind.
  intros n Hbuild node' Hnode.
  destruct (commandToCobra_fields command n Hbuild)
    as ((subs & Hall & Hcommands) & Hstatic & Hsilence & Hrun).
  inversion Hnode as [| root sub Hin Hbelow]; subst.
  - unfold cobra.staticFields in Hstatic. by injection Hstatic as _ _ _ _ _ _ -> ->.
  - apply list_elem_of_lookup in Hin as [i Hi].
    destruct (Forall2_lookup_r _ _ _ _ _ Hall Hi) as (subCommand & Hsub & Hbuildsub).
    rewrite Forall_forall in IH.
    apply (IH subCommand (list_elem_of_lookup_2 _ _ _ Hsub) sub Hbuildsub node' Hbelow).
Qed.

Lemma commandToCobra_children_meta command n :
  appcmd.commandToCobra lib ctx container command = Ok n →
  appcmd.cobraMeta <$> cobra.commands n
  = appcmd.commandMeta <$> appcmd.SubCommands command.
Proof.
  intros Hmeta%commandToCobra_meta.
  rewrite cobraMeta_eq, commandMeta_eq in Hmeta. by injection Hmeta.
Qed.

Lemma runConfigure_fields c root :
  appcmd.runConfigure container c = Ok root →
  cobra.commands root = cobra.commands c
  ∧ cobra.DisableDefaultCmd root = cobra.DisableDefaultCmd c.
Proof.
  unfold appcmd.runConfigure.
  destruct (app.Args container) as [[| arg0 rest] | |]; simpl; try done.
  intros [= <-]. destruct c.
  by destruct (_ && _).
Qed.

Lemma builtins_valid :
  appcmd.allValid (appcmd.completionCommand lib (Ctx := Ctx)) = true
  ∧ appcmd.allValid (appcmd.manpagesCommand lib (Ctx := Ctx)) = true.
Proof. by split. Qed.

(** X13. When no [ModifyCobra] is set, the root that [run] hands to
    [Execute] has cobra's default completion command switched off, and
    its children are the compiled sub-commands followed, exactly when
    there is a sub-command, by a "completion" command with the four
    children "bash", "fish", "powershell" and "zsh" and by a hidden
    "manpages" command. *)
Theorem run_builtins command root :
  appcmd.runSetup lib ctx container command = Ok root →
  appcmd.ModifyCobra command = None →
  cobra.DisableDefaultCmd root = true
  ∧ appcmd.cobraMeta <$> cobra.commands root
    = (appcmd.commandMeta <$> appcmd.SubCommands command)
      ++ (if (0 <? length (appcmd.SubCommands command))%nat
          then [appcmd.metaNode "completion" [] "" false
                  [appcmd.metaNode "bash" [] "" false [];
                   appcmd.metaNode "fish" [] "" false [];
                   appcmd.metaNode "powershell" [] "" false [];
                   appcmd.metaNode "zsh" [] "" false []];
                appcmd.metaNode "manpages" [] "" true []]
          else []).
Proof.
  unfold appcmd.runSetup, appcmd.runBuild. intros Hsetup Hmodify.
  destruct (appcmd.commandToCobra lib ctx container command) as [n | |] eqn:Hbuild;
    [| done | done].
  pose proof (commandToCobra_children_meta command n Hbuild) as Hchildren.
  rewrite Hmodify in Hsetup.
  cbv beta iota delta [mbind result_bind] in Hsetup.
  destruct (0 <? length (appcmd.SubCommands command))%nat.
  - destruct (appcmd.commandToCobra lib ctx container (appcmd.completionCommand lib))
      as [shell | |] eqn:Hshell; [| done | done].
    destruct (appcmd.commandToCobra lib ctx container (appcmd.manpagesCommand lib))
      as [man | |] eqn:Hman; [| done | done].
    apply runConfigure_fields in Hsetup as [-> ->].
    apply commandToCobra_meta in Hshell, Hman.
    change (appcmd.commandMeta (appcmd.completionCommand lib))
      with (appcmd.metaNode "completion" [] "" false
              [appcmd.metaNode "bash" [] "" false [];
               appcmd.metaNode "fish" [] "" false [];
               appcmd.metaNode "powershell" [] "" false [];
               appcmd.metaNode "zsh" [] "" false []]) in Hshell.
    change (appcmd.commandMeta (appcmd.manpagesCommand lib))
      with (appcmd.metaNode "manpages" [] "" true []) in Hman.
    destruct n. cbn [cobra.AddCommand cobra.SetDisableDefaultCmd cobra.commands
                     cobra.DisableDefaultCmd] in *.
    split; [done |].
    rewrite <- app_assoc, fmap_app, Hchildren. f_equal.
    change (appcmd.cobraMeta <$> [shell] ++ [man])
      with [appcmd.cobraMeta shell; appcmd.cobraMeta man].
    by rewrite Hshell, Hman.
  - apply runConfigure_fields in Hsetup as [-> ->].
    destruct n. cbn [cobra.SetDisableDefaultCmd cobra.commands cobra.DisableDefaultCmd] in *.
    split; [done |]. by rewrite app_nil_r.
Qed.

(** X14. When every node is valid and [ModifyCobra] is set and returns
    an error, [run] returns that error with the world untouched: nothing
    has been executed. *)
Theorem run_ModifyCobra_error command modify (e : error_val) :
  (∀ node, appcmd.nodeOf node command → appcmd.commandValidate node = None) →
  appcmd.ModifyCobra command = Some modify →
  (∀ c, (modify c).2 = Some e) →
  ∀ w : World, appcmd.run lib ctx container command w = Ok (w, Some e).
Proof.
  intros Hvalid%allValid_nodeOf Hmodify Hfail w.
  pose proof (commandToCobra_allValid lib ctx container command) as Hbuild.
  rewrite Hvalid in Hbuild. destruct Hbuild as [n Hbuild].
  pose proof (commandToCobra_allValid lib ctx container (appcmd.completionCommand lib))
    as Hshell.
  pose proof (commandToCobra_allValid lib ctx container (appcmd.manpagesCommand lib))
    as Hman.
  rewrite (proj1 builtins_valid) in Hshell. rewrite (proj2 builtins_valid) in Hman.
  destruct Hshell as [shell Hshell], Hman as [man Hman].
  unfold appcmd.run, appcmd.runSetup, appcmd.runBuild.
  rewrite Hbuild, Hmodify. cbv beta iota delta [mbind result_bind].
  destruct (0 <? length (appcmd.SubCommands command))%nat.
  - rewrite Hshell, Hman.
    match goal with |- context [modify ?c] =>
      pose proof (Hfail c) as Hc; destruct (modify c) as [modified err] end.
    simpl in Hc. by subst err.
  - match goal with |- context [modify ?c] =>
      pose proof (Hfail c) as Hc; destruct (modify c) as [modified err] end.
    simpl in Hc. by subst err.
Qed.




Lemma commandValidate_errorString command err :
  appcmd.commandValidate command = Some err → errors.noAppError err = true.
Proof.
  unfold appcmd.commandValidate.
  repeat match goal with |- context [if ?b then _ else _] => destruct b end;
    by intros [= <-].
Qed.


End MoreCommandFacts.

Section ExitFacts.

Import (coercions) app.

Context {World Reader Ctx : Type}.
Variable lib : appcmd.CobraLib World Reader.
Variable container : app.Container World Reader.

(** X16. The errors this package raises itself end in exit code 1. When
    a node of the tree fails validation, the package's [Run] returns a
    validation error after handing it once to [printError] on the
    untouched world, and [GetExitCode] of it is 1; and the error a node
    with sub-commands stores when no child was selected (help-tree and
    version flags unset) has exit code 1 as well. *)
Theorem own_errors_exit_code (ctx : Ctx) (command : appcmd.Command World Reader Ctx) :
  (∀ node (interrupt_Handle : Ctx → Ctx) printError (w : World),
     appcmd.nodeOf node command →
     appcmd.commandValidate node ≠ None →
     ∃ err,
       appcmd.RunCommand lib interrupt_Handle printError ctx container command w
       = Ok (printError (app.Container_Stderr container) err w, Some err)
       ∧ app.GetExitCode (Some err) = Ok 1)
  ∧ (∀ n cmd vars args (st : appcmd.RunState World),
       appcmd.commandToCobra lib ctx container command = Ok n →
       appcmd.SubCommands command ≠ [] →
       appcmd.helpTree vars = false →
       appcmd.Version command = "" ∨ appcmd.doVersion vars = false →
       ∃ st',
         appcmd.call (cobra.Run n) cmd vars args st = Ok st'
         ∧ app.GetExitCode (appcmd.runErr st') = Ok 1).
Proof.
  split.
  - intros node interrupt_Handle printError w Hnode Hinvalid.
    pose proof (commandToCobra_allValid lib (interrupt_Handle ctx) container command)
      as Hbuild.
    destruct (appcmd.allValid command) eqn:Hall.
    { destruct Hinvalid. by apply (proj1 (allValid_nodeOf command)). }
    destruct Hbuild as [err Hbuild].
    destruct (commandToCobra_Err lib (interrupt_Handle ctx) container command err Hbuild)
      as (failing & _ & Herr).
    exists err. split.
    + unfold appcmd.RunCommand, app.Run, appcmd.newRunFunc.
      by rewrite (run_build_error lib (interrupt_Handle ctx) container command err w
                    Hbuild).
    + apply commandValidate_errorString in Herr.
      unfold app.GetExitCode, errors.As. simpl. by rewrite as_noAppError.
  - intros n cmd vars args st Hbuild Hsubs HhelpTree Hversion.
    rewrite (compiled_call lib ctx container command n cmd vars args st Hbuild).
    replace (negb (String.eqb (appcmd.Version command) "") && appcmd.doVersion vars)
      with false
      by (destruct Hversion as [-> | ->]; [done | by rewrite andb_false_r]).
    destruct (appcmd.SubCommands command) as [| sub subs]; [done |].
    simpl. rewrite HhelpTree. unfold appcmd.subCommandRun.
    destruct (length args =? 0)%nat; by eexists.
Qed.

End ExitFacts.

(** ** The further statements at concrete input *)

Lemma commandToCobra_mirrors_witness :
  appcmd.cobraMeta (example.compiled [] example.parentCommand)
  = appcmd.metaNode "root" [] "" false [appcmd.metaNode "reject" [] "" false []]
  ∧ cobra.SilenceErrors (example.compiled [] example.parentCommand) = true.
Proof.
  pose proof (commandToCobra_mirrors example.lib tt (example.container [])
                example.parentCommand (example.compiled [] example.parentCommand)
                eq_refl) as [Hmeta Hnodes].
  split; [exact Hmeta |].
  apply (Hnodes (example.compiled [] example.parentCommand)), cobra.nodeOf_self.
Defined.

Lemma run_builtins_witness :
  cobra.DisableDefaultCmd (example.configured example.parentCommand ["prog"]) = true
  ∧ appcmd.cobraMeta <$> cobra.commands (example.configured example.parentCommand ["prog"])
    = [appcmd.metaNode "reject" [] "" false [];
       appcmd.metaNode "completion" [] "" false
         [appcmd.metaNode "bash" [] "" false [];
          appcmd.metaNode "fish" [] "" false [];
          appcmd.metaNode "powershell" [] "" false [];
          appcmd.metaNode "zsh" [] "" false []];
       appcmd.metaNode "manpages" [] "" true []].
Proof.
  apply (run_builtins example.lib tt (example.container ["prog"]) example.parentCommand
           (example.configured example.parentCommand ["prog"])); reflexivity.
Defined.

Lemma run_ModifyCobra_error_witness :
  appcmd.run example.lib tt (example.container ["prog"])
    (appcmd.mkCommand "tool" [] "A tool" "" None "" false None None None None
       (Some (λ _ _ w, Ok (w ++ [(example.stdout, "ran")], None))) []
       (Some (λ c, (c, Some (errorString "rejected")))) "")
    []
  = Ok ([], Some (errorString "rejected")).
Proof.
  apply (run_ModifyCobra_error example.lib tt (example.container ["prog"]) _
           (λ c, (c, Some (errorString "rejected"))) (errorString "rejected")).
  - apply allValid_nodeOf. reflexivity.
  - reflexivity.
  - reflexivity.
Defined.


Lemma own_errors_exit_code_witness :
  ∃ err,
    appcmd.RunCommand example.lib (λ ctx, ctx)
      (λ c err w, (app.Write (app.Stderr c) "error" w).1)
      tt (example.container ["prog"]) example.brokenCommand []
    = Ok ([(example.stderr, "error")], Some err)
    ∧ app.GetExitCode (Some err) = Ok 1.
Proof.
  apply (proj1 (own_errors_exit_code example.lib (example.container ["prog"]) tt
                  example.brokenCommand)
           (appcmd.commandLiteral "empty" "" None false None []) (λ ctx, ctx)
           (λ c err w, (app.Write (app.Stderr c) "error" w).1) []).
  - eapply appcmd.nodeOf_sub; [| apply appcmd.nodeOf_self].
    simpl. right. left.
  - vm_compute. discriminate.
Defined.


Lemma leafRun_other_witness :
  appcmd.invoke
    (example.compiled []
       (appcmd.commandLiteral "leaf" "A leaf" None false
          (Some (λ _ _ w, Ok (w ++ [(example.stdout, "done")],
                              Some (errorString "disk full")))) []))
    example.noFlags ["x"] (appcmd.Build_RunState [] None)
  = Ok (appcmd.Build_RunState [(example.stdout, "done")] (Some (errorString "disk full"))).
Proof.
  set (action := λ (_ : ()) (_ : app.Container example.World ()) (w : example.World),
         Ok (w ++ [(example.stdout, "done")], Some (errorString "disk full"))
         : result (example.World * error)).
  set (leaf := appcmd.commandLiteral "leaf" "A leaf" None false (Some action) []).
  apply (leafRun_other example.lib tt (example.container [])
           leaf (example.compiled [] leaf) action
           (cobra.erase (example.compiled [] leaf)) example.noFlags ["x"]
           (appcmd.Build_RunState [] None) [(example.stdout, "done")]
           (Some (errorString "disk full"))).
  - reflexivity.
  - reflexivity.
  - left. reflexivity.
  - reflexivity.
  - intros err [= <-]. reflexivity.
Defined.

Lemma Environ_order_irrelevant_witness :
  app.Environ {| app.Env := λ _, ""; app.ForEachEnv := [("B", "2"); ("A", "1")] |}
  = app.Environ {| app.Env := λ _, ""; app.ForEachEnv := [("A", "1"); ("B", "2")] |}.
Proof.
  apply (Environ_order_irrelevant
           {| app.Env := λ _, ""; app.ForEachEnv := [("B", "2"); ("A", "1")] |}
           {| app.Env := λ _, ""; app.ForEachEnv := [("A", "1"); ("B", "2")] |}).
  simpl. apply Permutation_swap.
Defined.
